(** * The Lagoon OIDC provider's [Authorize] (providers/lagoon.go)

    A shallow embedding of the route authorizer of the Lagoon provider and
    the properties its specification states about it.

    Go strings are byte sequences: they are modelled by [string], whose
    characters are 8-bit [ascii] values.  The Go [int] of a status code is a
    [Z].  Functions of Go's standard library that the provider calls are
    either written out ([strings.Split], [strings.TrimRight], [fmt],
    [http.Header.Set], [http.NewRequestWithContext]) or, where the provider
    only passes data through them (base64 and JSON codecs), taken through
    the interface [Codecs], of which [GoStd.codecs] is an instance. *)

From Stdlib Require Import String Ascii List ZArith Lia Bool.
From Stdlib Require Import DecimalString DecimalPos DecimalZ.
From stdpp Require Import gmap strings.
Import ListNotations.

Local Open Scope string_scope.
Local Open Scope Z_scope.
Local Open Scope list_scope.

(* string concatenation computes on a literal prefix *)
#[local] Arguments String.append !s1 s2 : simpl nomatch.

(** ** Errors and [fmt] *)

(** The two error values [fmt.Errorf] builds: a plain message, or (with a
    [%w] verb) a message that wraps its cause. *)
Inductive error : Type :=
  | errorString (msg : string)
  | wrapError (msg : string) (err : error).

(** The [Error()] method. *)
Definition Error (e : error) : string :=
  match e with
  | errorString msg => msg
  | wrapError msg _ => msg
  end.

(** [errors.Unwrap]. *)
Definition Unwrap (e : error) : option error :=
  match e with
  | errorString _ => None
  | wrapError _ err => Some err
  end.

(** A format string with its operands in place: literal text and the verbs
    the provider uses. *)
Inductive directive : Type :=
  | lit (text : string)
  | verb_s (operand : string)
  | verb_d (operand : Z)
  | verb_w (operand : error).

(** [strconv.Itoa]: the decimal numeral of an integer. *)
Definition strconv_Itoa (n : Z) : string :=
  NilZero.string_of_int (Z.to_int n).

Definition render (d : directive) : string :=
  match d with
  | lit text => text
  | verb_s operand => operand
  | verb_d operand => strconv_Itoa operand
  | verb_w operand => Error operand
  end.

Fixpoint fmt_Sprintf (format : list directive) : string :=
  match format with
  | [] => ""
  | d :: format' => render d +:+ fmt_Sprintf format'
  end.

Fixpoint wrappedErr (format : list directive) : option error :=
  match format with
  | [] => None
  | verb_w operand :: _ => Some operand
  | _ :: format' => wrappedErr format'
  end.

Definition fmt_Errorf (format : list directive) : error :=
  match wrappedErr format with
  | Some err => wrapError (fmt_Sprintf format) err
  | None => errorString (fmt_Sprintf format)
  end.

(** ** Bytes and [unicode/utf8] *)

Definition byte_val (c : ascii) : Z := Z.of_N (N_of_ascii c).
Definition byte_of (z : Z) : ascii := ascii_of_N (Z.to_N z).

Definition in_range (lo hi z : Z) : bool := (lo <=? z) && (z <=? hi).

Definition RuneError : Z := 65533.

(** The size and the accepted range of the second byte of the sequence a
    byte starts ([first] and [acceptRanges] of [unicode/utf8]); [None] for a
    byte that starts none. *)
Definition utf8_first (p0 : Z) : option (nat * (Z * Z)) :=
  if in_range 194 223 p0 then Some (2%nat, (128, 191))
  else if p0 =? 224 then Some (3%nat, (160, 191))
  else if in_range 225 236 p0 then Some (3%nat, (128, 191))
  else if p0 =? 237 then Some (3%nat, (128, 159))
  else if in_range 238 239 p0 then Some (3%nat, (128, 191))
  else if p0 =? 240 then Some (4%nat, (144, 191))
  else if in_range 241 243 p0 then Some (4%nat, (128, 191))
  else if p0 =? 244 then Some (4%nat, (128, 143))
  else None.

Definition cont (b : Z) : Z := Z.land b 63.

(** [utf8.DecodeRune]: the first rune of [p] and its width in bytes;
    [(RuneError, 1)] on an invalid or short sequence. *)
Definition utf8_DecodeRune (p : list ascii) : Z * nat :=
  match map byte_val p with
  | [] => (RuneError, 0%nat)
  | p0 :: rest =>
      if p0 <? 128 then (p0, 1%nat)
      else
        match utf8_first p0, rest with
        | Some (2%nat, (lo, hi)), b1 :: _ =>
            if in_range lo hi b1
            then (Z.lor (Z.shiftl (Z.land p0 31) 6) (cont b1), 2%nat)
            else (RuneError, 1%nat)
        | Some (3%nat, (lo, hi)), b1 :: b2 :: _ =>
            if in_range lo hi b1 && in_range 128 191 b2
            then (Z.lor (Z.shiftl (Z.land p0 15) 12)
                    (Z.lor (Z.shiftl (cont b1) 6) (cont b2)), 3%nat)
            else (RuneError, 1%nat)
        | Some (4%nat, (lo, hi)), b1 :: b2 :: b3 :: _ =>
            if in_range lo hi b1 && in_range 128 191 b2 && in_range 128 191 b3
            then (Z.lor (Z.shiftl (Z.land p0 7) 18)
                    (Z.lor (Z.shiftl (cont b1) 12)
                       (Z.lor (Z.shiftl (cont b2) 6) (cont b3))), 4%nat)
            else (RuneError, 1%nat)
        | _, _ => (RuneError, 1%nat)
        end
  end.

(** [utf8.AppendRune]: the encoding of a rune; surrogates and values out of
    range are encoded as [RuneError]. *)
Definition utf8_EncodeRune (r : Z) : list ascii :=
  let tail (shift : Z) := byte_of (Z.lor 128 (Z.land (Z.shiftr r shift) 63)) in
  if in_range 0 127 r then [byte_of r]
  else if in_range 128 2047 r then [byte_of (Z.lor 192 (Z.shiftr r 6)); tail 0]
  else if (r <? 0) || (1114111 <? r) || in_range 55296 57343 r
  then [byte_of 239; byte_of 191; byte_of 189]
  else if r <=? 65535
  then [byte_of (Z.lor 224 (Z.shiftr r 12)); tail 6; tail 0]
  else [byte_of (Z.lor 240 (Z.shiftr r 18)); tail 12; tail 6; tail 0].

(** ** [strings] *)

Definition byte_in (c : ascii) (cutset : string) : bool :=
  existsb (Ascii.eqb c) (list_ascii_of_string cutset).

(** [strings.TrimRight s cutset] for a cutset of single-byte characters:
    the longest prefix of [s] that does not end in a byte of the cutset. *)
Fixpoint strings_TrimRight (s cutset : string) : string :=
  match s with
  | EmptyString => EmptyString
  | String c s' =>
      match strings_TrimRight s' cutset with
      | EmptyString => if byte_in c cutset then EmptyString else String c EmptyString
      | t => String c t
      end
  end.

Definition reversed (l : list ascii) : string := string_of_list_ascii (rev l).

(** [explode]: a string cut into its UTF-8 sequences, an invalid byte
    standing alone.  [cur_rev] holds the bytes of the sequence at hand,
    latest first, and [pending] counts those still to come. *)
Fixpoint explode (pending : nat) (cur_rev : list ascii) (s : list ascii)
  : list string :=
  match s with
  | [] => []
  | c :: rest =>
      match pending with
      | S O => reversed (c :: cur_rev) :: explode 0 [] rest
      | S pending' => explode pending' (c :: cur_rev) rest
      | O =>
          match snd (utf8_DecodeRune s) with
          | S (S size) => explode (S size) [c] rest
          | _ => reversed [c] :: explode 0 [] rest
          end
      end
  end.

(** [genSplit] for a non-empty separator: the pieces between the
    occurrences of [sep], found left to right and not overlapping.
    [cur_rev] holds the piece at hand, latest byte first, and [skip] counts
    the bytes of a found separator still to pass. *)
Fixpoint genSplit (sep : string) (skip : nat) (cur_rev : list ascii) (s : string)
  : list string :=
  match s with
  | EmptyString => [reversed cur_rev]
  | String c s' =>
      match skip with
      | S skip' => genSplit sep skip' cur_rev s'
      | O =>
          if String.prefix sep s
          then reversed cur_rev :: genSplit sep (String.length sep - 1) [] s'
          else genSplit sep 0 (c :: cur_rev) s'
      end
  end.

(** [strings.Split s sep]. *)
Definition strings_Split (s sep : string) : list string :=
  match sep with
  | EmptyString => explode 0 [] (list_ascii_of_string s)
  | _ => genSplit sep 0 [] s
  end.
#[global] Arguments strings_Split : simpl never.

(** ** Data model *)

(** [sessions.SessionState], restricted to the two fields the provider
    reads.  The caller passes a non-nil pointer. *)
Record SessionState : Type := {
  AccessToken : string;
  AppRedirect : string
}.

(** A (non-nil) [context.Context]: what its [Err()] reports. *)
Record Context : Type := { ctx_Err : option error }.

(** [http.Request], with the fields [Authorize] sets. *)
Record Request : Type := {
  Method : string;
  URL : string;
  Header : gmap string (list string);
  ReqBody : string;
  ReqContext : Context
}.

(** The body stream of a response: what [io.ReadAll] yields on it (the
    bytes read and the read error, if any) and what [Close] returns. *)
Record ReadCloser : Type := {
  read_data : string;
  read_err : option error;
  close_err : option error
}.

(** [http.Response]. *)
Record Response : Type := {
  StatusCode : Z;
  Body : ReadCloser
}.

(** The remote service as seen through [client.Do]: each request gets a
    response or a transport error. *)
Definition Network : Type := Request -> Response + error.

(** The operands of the request's [map[string]interface{}]. *)
Inductive any : Type :=
  | any_string (s : string)
  | any_map (m : gmap string string).

(** [environmentByRouteResponse] and its anonymous structs. *)
Record environmentByRoute_t : Type := { ID : Z; Name : string }.
Record data_t : Type := { EnvironmentByRoute : environmentByRoute_t }.
Record error_t : Type := { Message : string }.
Record environmentByRouteResponse : Type := {
  Data : data_t;
  Errors : list error_t
}.

(** The zero value of [var gqlResp environmentByRouteResponse]. *)
Definition zero_environmentByRouteResponse : environmentByRouteResponse :=
  {| Data := {| EnvironmentByRoute := {| ID := 0; Name := "" |} |};
     Errors := [] |}.

(** The codecs of the standard library the provider calls.  Each returns
    Go's pair of a value and an error; [json.Unmarshal] updates the value
    passed by pointer. *)
Class Codecs : Type := {
  base64_RawURLEncoding_DecodeString : string -> string * option error;
  json_Marshal : gmap string any -> string * option error;
  json_Unmarshal :
    string -> environmentByRouteResponse ->
    environmentByRouteResponse * option error
}.

(** ** Effects *)

(** What a call does to the outside world, in order. *)
Inductive Event : Type :=
  | LogPrintf (line : string)
  | ClientDo (req : Request)
  | ReadAll (r : ReadCloser)
  | Close (r : ReadCloser).

(** A Go function call either returns or panics. *)
Inductive Outcome (A : Type) : Type :=
  | Returned (a : A)
  | Panicked (msg : string).
Arguments Returned {A} a.
Arguments Panicked {A} msg.

(** Computations: the events emitted and the outcome. *)
Definition M (A : Type) : Type := list Event * Outcome A.

Definition ret {A : Type} (a : A) : M A := ([], Returned a).

Definition bind {A B : Type} (m : M A) (k : A -> M B) : M B :=
  match m with
  | (t, Returned a) => let (t', r) := k a in (t ++ t', r)
  | (t, Panicked msg) => (t, Panicked msg)
  end.

Definition emit (e : Event) : M unit := ([e], Returned tt).

Definition panic {A : Type} (msg : string) : M A := ([], Panicked msg).

(** [defer d] followed by [body]: [d] runs when [body] has returned or
    panicked; its result is dropped. *)
Definition defer {A : Type} (d : M unit) (body : M A) : M A :=
  let (t, r) := body in (t ++ fst d, r).

(** stdpp's monad notations ([x ← m; k] and [m;; k]) for [M]. *)
#[global] Instance M_ret : MRet M := @ret.
#[global] Instance M_bind : MBind M := fun A B k m => bind m k.

Definition events {A : Type} (m : M A) : list Event := fst m.
Definition outcome {A : Type} (m : M A) : Outcome A := snd m.

(** [a[i]] on a slice: a run-time panic when out of range. *)
Definition at_index {A : Type} (a : list A) (i : nat) : M A :=
  match nth_error a i with
  | Some x => mret x
  | None => panic "runtime error: index out of range"
  end.

Definition logger_Printf (format : list directive) : M unit :=
  emit (LogPrintf (fmt_Sprintf format)).

Definition client_Do (net : Network) (req : Request) : M (Response + error) :=
  emit (ClientDo req);; mret (net req).

Definition io_ReadAll (r : ReadCloser) : M (string * option error) :=
  emit (ReadAll r);; mret (read_data r, read_err r).

Definition Body_Close (r : ReadCloser) : M unit :=
  emit (Close r).

(** ** [net/http] *)

Definition http_StatusOK : Z := 200.

(** [h.Set(key, value)]: the entry of [key] becomes the single [value].
    The two keys the provider sets are already in canonical form. *)
Definition Header_Set (h : gmap string (list string)) (key value : string)
  : gmap string (list string) :=
  <[key := [value]]> h.

Definition Request_Header_Set (req : Request) (key value : string) : Request :=
  {| Method := Method req; URL := URL req;
     Header := Header_Set (Header req) key value;
     ReqBody := ReqBody req; ReqContext := ReqContext req |}.

(** [http.NewRequestWithContext], for a valid method and a URL that parses
    (as the two constants the provider passes do): it fails on a nil
    context only, and the new request has an empty header. *)
Definition http_NewRequestWithContext
    (ctx : option Context) (method url body : string) : Request + error :=
  match ctx with
  | None => inr (errorString "net/http: nil Context")
  | Some c =>
      inl {| Method := method; URL := url; Header := ∅;
             ReqBody := body; ReqContext := c |}
  end.

(** ** The provider *)

Definition newline : string := String "010"%char EmptyString.

Definition lagoonGraphqlEndpoint : string :=
  "http://lagoon-api.172.18.0.240.nip.io/graphql".

Definition queryGetEnvironmentByRoute : string := "
query GetEnvironmentByRoute($route: String!) {
  environmentByRoute(route: $route) {
    id
    name
  }
}
".

(** Lines 63-69 of [Authorize]: the access token is split on dots and, when
    it has three parts, the first two are decoded and logged. *)
Definition inspectToken `{C : Codecs} (token : string) : M unit :=
  let parts := strings_Split token "." in
  if (length parts =? 3)%nat then
    part0 ← at_index parts 0;
    let (header, _) := base64_RawURLEncoding_DecodeString part0 in
    part1 ← at_index parts 1;
    let (payload, _) := base64_RawURLEncoding_DecodeString part1 in
    logger_Printf [lit "Access Token Header: "; verb_s header; lit newline];;
    logger_Printf [lit "Access Token Payload: "; verb_s payload; lit newline]
  else mret tt.

(** The request payload of lines 76-79. *)
Definition requestBody (route : string) : gmap string any :=
  {[ "query" := any_string queryGetEnvironmentByRoute;
     "variables" := any_map {[ "route" := route ]} ]}.

(** Lines 99-121: what [Authorize] does with the response it obtained. *)
Definition interpret `{C : Codecs} (resp : Response) : M (bool * option error) :=
  if negb (StatusCode resp =? http_StatusOK) then
    mret (false, Some (fmt_Errorf [lit "unexpected GraphQL status: ";
                                   verb_d (StatusCode resp)]))
  else
    defer (Body_Close (Body resp)) (
      '(bodyBytes, _) ← io_ReadAll (Body resp);
      logger_Printf [lit "Lagoon Authorization returned:"; lit newline;
                     verb_s bodyBytes; lit newline];;
      let (gqlResp, err) :=
        json_Unmarshal bodyBytes zero_environmentByRouteResponse in
      match err with
      | Some err =>
          mret (false, Some (fmt_Errorf [lit "failed to decode GraphQL response: ";
                                         verb_w err]))
      | None =>
          if (0 <? length (Errors gqlResp))%nat then
            first ← at_index (Errors gqlResp) 0;
            mret (false, Some (fmt_Errorf [lit "GraphQL error: ";
                                           verb_s (Message first)]))
          else if negb (String.eqb (Name (EnvironmentByRoute (Data gqlResp))) "")
          then mret (true, None)
          else mret (false, None)
      end).

Definition Authorize `{C : Codecs}
    (net : Network) (ctx : option Context) (s : SessionState)
  : M (bool * option error) :=
  logger_Printf [lit "Checking Lagoon provider for authorization on ";
                 verb_s (AppRedirect s); lit newline];;
  inspectToken (AccessToken s);;
  let route := strings_TrimRight (AppRedirect s) "/" in
  if String.eqb route "" then
    mret (false, Some (fmt_Errorf [lit "missing redirect URL"]))
  else
    let body := requestBody route in
    let (bodyJSON, err) := json_Marshal body in
    match err with
    | Some err =>
        mret (false, Some (fmt_Errorf [lit "failed to marshal GraphQL request: ";
                                       verb_w err]))
    | None =>
        match http_NewRequestWithContext ctx "POST" lagoonGraphqlEndpoint bodyJSON with
        | inr err =>
            mret (false, Some (fmt_Errorf [lit "failed to create GraphQL request: ";
                                           verb_w err]))
        | inl req =>
            let req := Request_Header_Set req "Authorization"
                         ("Bearer " +:+ AccessToken s) in
            let req := Request_Header_Set req "Content-Type" "application/json" in
            r ← client_Do net req;
            match r with
            | inr err =>
                mret (false, Some (fmt_Errorf [lit "failed to call Lagoon GraphQL API: ";
                                               verb_w err]))
            | inl resp => interpret resp
            end
        end
    end.

(** ** The vocabulary of the specification *)

(** The error kinds of the specification's taxonomy, as the values the
    provider builds for them. *)
Definition MissingDestination : error :=
  fmt_Errorf [lit "missing redirect URL"].
Definition RequestEncodingFailed (cause : error) : error :=
  fmt_Errorf [lit "failed to marshal GraphQL request: "; verb_w cause].
Definition RequestCreationFailed (cause : error) : error :=
  fmt_Errorf [lit "failed to create GraphQL request: "; verb_w cause].
Definition TransportFailure (cause : error) : error :=
  fmt_Errorf [lit "failed to call Lagoon GraphQL API: "; verb_w cause].
Definition UnexpectedStatus (code : Z) : error :=
  fmt_Errorf [lit "unexpected GraphQL status: "; verb_d code].
Definition ResponseDecodeFailed (cause : error) : error :=
  fmt_Errorf [lit "failed to decode GraphQL response: "; verb_w cause].
Definition RemoteGraphQLError (message : string) : error :=
  fmt_Errorf [lit "GraphQL error: "; verb_s message].

(** The normalized route of a session. *)
Definition route_of (s : SessionState) : string :=
  strings_TrimRight (AppRedirect s) "/".

(** The requests a trace hands to [client.Do], and the body streams it
    reads and closes. *)
Definition issued (t : list Event) : list Request :=
  omap (fun e => match e with ClientDo req => Some req | _ => None end) t.
Definition bodies_read (t : list Event) : list ReadCloser :=
  omap (fun e => match e with ReadAll r => Some r | _ => None end) t.
Definition bodies_closed (t : list Event) : list ReadCloser :=
  omap (fun e => match e with Close r => Some r | _ => None end) t.

(** The call [Authorize net ctx s] obtains the response [resp] from the
    client: it issues a request that the network answers with [resp]. *)
Definition receives `{C : Codecs}
    (net : Network) (ctx : option Context) (s : SessionState) (resp : Response)
  : Prop :=
  exists req, In req (issued (events (Authorize net ctx s))) /\ net req = inl resp.

(** The decoded response of a 200 body. *)
Definition decoded `{C : Codecs} (resp : Response)
  : environmentByRouteResponse * option error :=
  json_Unmarshal (read_data (Body resp)) zero_environmentByRouteResponse.

(** The GraphQL query text as section 6 of the specification prints it: six
    lines, joined by line feeds.  This one follows the specification, to be
    compared with [queryGetEnvironmentByRoute], which follows the code. *)
Definition spec_query_text : string :=
  "query GetEnvironmentByRoute($route: String!) {" +:+ newline +:+
  "  environmentByRoute(route: $route) {" +:+ newline +:+
  "    id" +:+ newline +:+
  "    name" +:+ newline +:+
  "  }" +:+ newline +:+
  "}".

(** The JSON body of the specification's wire protocol, before encoding:
    [{"query": Q, "variables": {"route": R}}]. *)
Definition payload (Q R : string) : gmap string any :=
  {[ "query" := any_string Q; "variables" := any_map {[ "route" := R ]} ]}.

(** The same codecs with another base64 decoder in place. *)
Definition with_decoder (C : Codecs) (decoder : string -> string * option error)
  : Codecs :=
  {| base64_RawURLEncoding_DecodeString := decoder;
     json_Marshal := @json_Marshal C;
     json_Unmarshal := @json_Unmarshal C |}.

(** Log lines are the only events of a trace. *)
Definition only_logs (t : list Event) : Prop :=
  Forall (fun e => exists line, e = LogPrintf line) t.

(** A run of [n] slashes, and whether a string ends in a slash. *)
Fixpoint slashes (n : nat) : string :=
  match n with
  | O => EmptyString
  | S n' => String "/" (slashes n')
  end.

Fixpoint ends_with_slash (s : string) : bool :=
  match s with
  | EmptyString => false
  | String c EmptyString => Ascii.eqb c "/"
  | String _ s' => ends_with_slash s'
  end.

(** The results [Authorize] can return: one of the errors above with
    [false], or a decision with no error. *)
Inductive classified : bool * option error -> Prop :=
  | is_MissingDestination :
      classified (false, Some MissingDestination)
  | is_RequestEncodingFailed cause :
      classified (false, Some (RequestEncodingFailed cause))
  | is_RequestCreationFailed cause :
      classified (false, Some (RequestCreationFailed cause))
  | is_TransportFailure cause :
      classified (false, Some (TransportFailure cause))
  | is_UnexpectedStatus code :
      code <> http_StatusOK -> classified (false, Some (UnexpectedStatus code))
  | is_ResponseDecodeFailed cause :
      classified (false, Some (ResponseDecodeFailed cause))
  | is_RemoteGraphQLError message :
      classified (false, Some (RemoteGraphQLError message))
  | is_decision allowed :
      classified (allowed, None).

(** The number of occurrences of a byte in a string. *)
Fixpoint count_byte (c : ascii) (s : string) : nat :=
  match s with
  | EmptyString => O
  | String a s' => (if Ascii.eqb a c then 1 else 0) + count_byte c s'
  end.

(** What the token-inspection step logs: nothing unless the token has
    exactly three dot-separated parts. *)
Definition inspection_log `{C : Codecs} (token : string) : list Event :=
  match strings_Split token "." with
  | [part0; part1; _] =>
      [LogPrintf (fmt_Sprintf
         [lit "Access Token Header: ";
          verb_s (fst (base64_RawURLEncoding_DecodeString part0)); lit newline]);
       LogPrintf (fmt_Sprintf
         [lit "Access Token Payload: ";
          verb_s (fst (base64_RawURLEncoding_DecodeString part1)); lit newline])]
  | _ => []
  end.

(** The events of [Authorize] up to the check of the route. *)
Definition preamble `{C : Codecs} (s : SessionState) : list Event :=
  LogPrintf (fmt_Sprintf [lit "Checking Lagoon provider for authorization on ";
                          verb_s (AppRedirect s); lit newline])
  :: inspection_log (AccessToken s).

(** The request the specification describes: a POST to the endpoint, with
    the two headers and the given body. *)
Definition outbound (c : Context) (s : SessionState) (bodyJSON : string) : Request :=
  {| Method := "POST";
     URL := lagoonGraphqlEndpoint;
     Header := {[ "Authorization" := ["Bearer " +:+ AccessToken s];
                  "Content-Type" := ["application/json"] ]};
     ReqBody := bodyJSON;
     ReqContext := c |}.

(** The decision of the specification's steps 5 to 7 on a decoded body. *)
Definition decision (d : environmentByRouteResponse * option error)
  : bool * option error :=
  match d with
  | (_, Some cause) => (false, Some (ResponseDecodeFailed cause))
  | (r, None) =>
      match Errors r with
      | first :: _ => (false, Some (RemoteGraphQLError (Message first)))
      | [] => (negb (String.eqb (Name (EnvironmentByRoute (Data r))) ""), None)
      end
  end.

(** ** A reference model of the codecs

    Go's [encoding/base64] and [encoding/json] on the values the provider
    gives them, written after the standard library (Go 1.22).  Two things
    are left out: the text of a JSON decoding error names the kind of the
    error only (Go's also quotes an offset, an input byte or a field), and
    a slice has no capacity, so that an element past its length starts from
    the zero value. *)

Module GoStd.

(** *** [encoding/base64]: [RawURLEncoding.DecodeString] *)

(** The URL-safe alphabet: [A-Z], [a-z], [0-9], [-] and [_]. *)
Definition decodeMap (c : ascii) : option Z :=
  let b := byte_val c in
  if in_range 65 90 b then Some (b - 65)
  else if in_range 97 122 b then Some (b - 71)
  else if in_range 48 57 b then Some (b + 4)
  else if b =? 45 then Some 62
  else if b =? 95 then Some 63
  else None.

Definition CorruptInputError (offset : Z) : error :=
  errorString ("illegal base64 data at input byte " +:+ strconv_Itoa offset).

Definition assemble (a b c d : Z) : Z :=
  Z.lor (Z.shiftl a 18) (Z.lor (Z.shiftl b 12) (Z.lor (Z.shiftl c 6) d)).

Definition byte_at (val shift : Z) : ascii :=
  byte_of (Z.land (Z.shiftr val shift) 255).

(** [Decode] as a run of [decodeQuantum]: [si] is the offset in the input
    and [quantum] the sextets gathered for the current group of four.
    Line feeds and carriage returns are skipped; there is no padding
    character; on an error the bytes of the groups before it are kept. *)
Fixpoint decode (src : list ascii) (si : Z) (quantum : list Z)
  : list ascii * option error :=
  match src with
  | [] =>
      match quantum with
      | [] => ([], None)
      | [a; b] => ([byte_at (assemble a b 0 0) 16], None)
      | [a; b; c] =>
          let val := assemble a b c 0 in ([byte_at val 16; byte_at val 8], None)
      | _ => ([], Some (CorruptInputError (si - 1)))
      end
  | c :: src' =>
      match decodeMap c with
      | Some v =>
          match quantum with
          | [a; b; c3] =>
              let val := assemble a b c3 v in
              let (out, err) := decode src' (si + 1) [] in
              (byte_at val 16 :: byte_at val 8 :: byte_at val 0 :: out, err)
          | _ => decode src' (si + 1) (quantum ++ [v])
          end
      | None =>
          if (byte_val c =? 10) || (byte_val c =? 13)
          then decode src' (si + 1) quantum
          else ([], Some (CorruptInputError si))
      end
  end.

Definition DecodeString (s : string) : string * option error :=
  let (out, err) := decode (list_ascii_of_string s) 0 [] in
  (string_of_list_ascii out, err).

(** *** [encoding/json]: [Marshal] *)

Definition dquote : ascii := "034"%char.
Definition backslash : ascii := "092"%char.

Definition chars (s : string) : list ascii := list_ascii_of_string s.

Definition hex_digit (n : Z) : ascii :=
  nth (Z.to_nat n) (chars "0123456789abcdef") "0"%char.

(** The escape of an ASCII byte in a string ([appendString] with HTML
    escaping, as [Marshal] sets it). *)
Definition escape_ascii (b : ascii) : list ascii :=
  let v := byte_val b in
  if (v =? 34) || (v =? 92) then [backslash; b]
  else if v =? 8 then [backslash; "b"%char]
  else if v =? 12 then [backslash; "f"%char]
  else if v =? 10 then [backslash; "n"%char]
  else if v =? 13 then [backslash; "r"%char]
  else if v =? 9 then [backslash; "t"%char]
  else if (v <? 32) || (v =? 60) || (v =? 62) || (v =? 38)
  then backslash :: chars "u00" ++ [hex_digit (Z.shiftr v 4); hex_digit (Z.land v 15)]
  else [b].

(** The inside of an encoded string.  [pending] counts the bytes of the
    current UTF-8 sequence still to pass, copied or dropped as [copy] says. *)
Fixpoint appendString (pending : nat) (copy : bool) (src : list ascii) : list ascii :=
  match src with
  | [] => []
  | b :: rest =>
      match pending with
      | S pending' =>
          (if copy then [b] else []) ++ appendString pending' copy rest
      | O =>
          if byte_val b <? 128 then escape_ascii b ++ appendString 0 true rest
          else
            let (c, size) := utf8_DecodeRune src in
            if (c =? RuneError) && (size =? 1)%nat
            then backslash :: chars "ufffd" ++ appendString 0 true rest
            else if (c =? 8232) || (c =? 8233)
            then backslash :: chars "u202" ++ [hex_digit (Z.land c 15)]
                 ++ appendString (size - 1) false rest
            else b :: appendString (size - 1) true rest
      end
  end.

Definition encode_string (s : string) : list ascii :=
  dquote :: appendString 0 true (chars s) ++ [dquote].

(** The entries of a map in the order of their keys, as the encoder sorts
    them. *)
Fixpoint insert_by_key {V : Type} (kv : string * V) (l : list (string * V))
  : list (string * V) :=
  match l with
  | [] => [kv]
  | kv' :: l' =>
      if String.leb (fst kv) (fst kv') then kv :: l else kv' :: insert_by_key kv l'
  end.

Definition sorted_entries {V : Type} (m : gmap string V) : list (string * V) :=
  foldr insert_by_key [] (map_to_list m).

Fixpoint join_members (members : list (list ascii)) : list ascii :=
  match members with
  | [] => []
  | [m] => m
  | m :: members' => m ++ ","%char :: join_members members'
  end.

Definition encode_object {V : Type} (encode : V -> list ascii) (m : gmap string V)
  : list ascii :=
  "{"%char ::
  join_members (map (fun kv => encode_string (fst kv) ++ ":"%char :: encode (snd kv))
                    (sorted_entries m))
  ++ ["}"%char].

Definition encode_any (v : any) : list ascii :=
  match v with
  | any_string s => encode_string s
  | any_map m => encode_object encode_string m
  end.

(** [json.Marshal] of the request's map: it cannot fail on these values. *)
Definition Marshal (v : gmap string any) : string * option error :=
  (string_of_list_ascii (encode_object encode_any v), None).

(** *** [encoding/json]: the scanner *)

#[local] Unset Elimination Schemes.
Inductive json : Type :=
  | JNull
  | JBool (b : bool)
  | JNumber (literal : string)
  | JString (s : string)
  | JArray (items : list json)
  | JObject (members : list (string * json)).
#[local] Set Elimination Schemes.

Inductive token : Type :=
  | TLBrace | TRBrace | TLBracket | TRBracket | TComma | TColon
  | TLiteral (v : json)
  | TNumber (literal : list ascii)
  | TString (raw : list ascii).

(** Where the scanner stands inside a string, a number or a literal. *)
Inductive string_state : Type :=
  | SNormal | SEscape | SHex (remaining : nat).

Inductive number_state : Type :=
  | NMinus | NZero | NInt | NDot | NFrac | NExp | NExpSign | NExpDigits.

Inductive mode : Type :=
  | Default
  | InString (raw_rev : list ascii) (st : string_state)
  | InNumber (literal_rev : list ascii) (st : number_state)
  | InLiteral (expected : list ascii) (tok : token).

Definition is_space (c : ascii) : bool :=
  let v := byte_val c in (v =? 32) || (v =? 9) || (v =? 13) || (v =? 10).

Definition is_digit (c : ascii) : bool := in_range 48 57 (byte_val c).

Definition is_hex (c : ascii) : bool :=
  let v := byte_val c in in_range 48 57 v || in_range 97 102 v || in_range 65 70 v.

Definition is_exp (c : ascii) : bool :=
  (byte_val c =? 101) || (byte_val c =? 69).

(** One byte at the beginning of a value or between values. *)
Definition step_default (c : ascii) : option (list token * mode) :=
  let v := byte_val c in
  if is_space c then Some ([], Default)
  else if v =? 123 then Some ([TLBrace], Default)
  else if v =? 125 then Some ([TRBrace], Default)
  else if v =? 91 then Some ([TLBracket], Default)
  else if v =? 93 then Some ([TRBracket], Default)
  else if v =? 44 then Some ([TComma], Default)
  else if v =? 58 then Some ([TColon], Default)
  else if v =? 34 then Some ([], InString [] SNormal)
  else if v =? 45 then Some ([], InNumber [c] NMinus)
  else if v =? 48 then Some ([], InNumber [c] NZero)
  else if is_digit c then Some ([], InNumber [c] NInt)
  else if v =? 116 then Some ([], InLiteral (chars "rue") (TLiteral (JBool true)))
  else if v =? 102 then Some ([], InLiteral (chars "alse") (TLiteral (JBool false)))
  else if v =? 110 then Some ([], InLiteral (chars "ull") (TLiteral JNull))
  else None.

(** One byte inside a number: the next state, [None] when the byte cannot
    continue the number. *)
Definition step_number (st : number_state) (c : ascii) : option number_state :=
  let v := byte_val c in
  match st with
  | NMinus => if v =? 48 then Some NZero else if is_digit c then Some NInt else None
  | NZero => if v =? 46 then Some NDot else if is_exp c then Some NExp else None
  | NInt =>
      if is_digit c then Some NInt
      else if v =? 46 then Some NDot else if is_exp c then Some NExp else None
  | NDot => if is_digit c then Some NFrac else None
  | NFrac => if is_digit c then Some NFrac else if is_exp c then Some NExp else None
  | NExp =>
      if (v =? 43) || (v =? 45) then Some NExpSign
      else if is_digit c then Some NExpDigits else None
  | NExpSign => if is_digit c then Some NExpDigits else None
  | NExpDigits => if is_digit c then Some NExpDigits else None
  end.

(** The states in which a number may end. *)
Definition number_complete (st : number_state) : bool :=
  match st with
  | NZero | NInt | NFrac | NExpDigits => true
  | _ => false
  end.

Definition step_string (raw_rev : list ascii) (st : string_state) (c : ascii)
  : option (list token * mode) :=
  let v := byte_val c in
  match st with
  | SNormal =>
      if v =? 34 then Some ([TString (rev raw_rev)], Default)
      else if v =? 92 then Some ([], InString (c :: raw_rev) SEscape)
      else if v <? 32 then None
      else Some ([], InString (c :: raw_rev) SNormal)
  | SEscape =>
      if existsb (Ascii.eqb c) (backslash :: dquote :: chars "bfnrt/")
      then Some ([], InString (c :: raw_rev) SNormal)
      else if v =? 117 then Some ([], InString (c :: raw_rev) (SHex 4))
      else None
  | SHex n =>
      if is_hex c
      then Some ([], InString (c :: raw_rev)
                       match n with
                       | S (S n') => SHex (S n')
                       | _ => SNormal
                       end)
      else None
  end.

Definition step (m : mode) (c : ascii) : option (list token * mode) :=
  match m with
  | Default => step_default c
  | InString raw_rev st => step_string raw_rev st c
  | InNumber literal_rev st =>
      match step_number st c with
      | Some st' => Some ([], InNumber (c :: literal_rev) st')
      | None =>
          if number_complete st then
            match step_default c with
            | Some (toks, m') => Some (TNumber (rev literal_rev) :: toks, m')
            | None => None
            end
          else None
      end
  | InLiteral expected tok =>
      match expected with
      | [e] => if Ascii.eqb c e then Some ([tok], Default) else None
      | e :: expected' =>
          if Ascii.eqb c e then Some ([], InLiteral expected' tok) else None
      | [] => None
      end
  end.

(** The tokens of a text; [None] on a byte that fits nowhere or on a text
    that ends inside a token. *)
Fixpoint lex (m : mode) (s : list ascii) : option (list token) :=
  match s with
  | [] =>
      match m with
      | Default => Some []
      | InNumber literal_rev st =>
          if number_complete st then Some [TNumber (rev literal_rev)] else None
      | _ => None
      end
  | c :: s' =>
      match step m c with
      | Some (toks, m') =>
          match lex m' s' with
          | Some toks' => Some (toks ++ toks')
          | None => None
          end
      | None => None
      end
  end.

(** *** [encoding/json]: string literals *)

Definition hex_val (c : ascii) : Z :=
  let v := byte_val c in
  if in_range 48 57 v then v - 48
  else if in_range 97 102 v then v - 87
  else v - 55.

(** [getu4] on the four digits of a [\u] escape. *)
Definition getu4 (h1 h2 h3 h4 : ascii) : option Z :=
  if is_hex h1 && is_hex h2 && is_hex h3 && is_hex h4
  then Some (((hex_val h1 * 16 + hex_val h2) * 16 + hex_val h3) * 16 + hex_val h4)
  else None.

Definition utf16_IsSurrogate (r : Z) : bool := in_range 55296 57343 r.

(** [utf16.DecodeRune]: the rune of a surrogate pair, [RuneError] when the
    two halves are no pair. *)
Definition utf16_DecodeRune (r1 r2 : Z) : Z :=
  if in_range 55296 56319 r1 && in_range 56320 57343 r2
  then Z.lor (Z.shiftl (r1 - 55296) 10) (r2 - 56320) + 65536
  else RuneError.

Definition simple_escape (e : ascii) : option ascii :=
  let v := byte_val e in
  if (v =? 34) || (v =? 92) || (v =? 47) || (v =? 39) then Some e
  else if v =? 98 then Some (byte_of 8)
  else if v =? 102 then Some (byte_of 12)
  else if v =? 110 then Some (byte_of 10)
  else if v =? 114 then Some (byte_of 13)
  else if v =? 116 then Some (byte_of 9)
  else None.

Definition prepend (l : list ascii) (r : option (list ascii)) : option (list ascii) :=
  match r with
  | Some l' => Some (l ++ l')
  | None => None
  end.

(** [unquoteBytes] on the inside of a string literal: escapes are replaced,
    a surrogate pair of [\u] escapes makes one rune, and invalid UTF-8 is
    replaced by [RuneError].  [pending] counts the bytes still to copy of the
    UTF-8 sequence at hand. *)
Fixpoint unquote (pending : nat) (s : list ascii) : option (list ascii) :=
  match s with
  | [] => Some []
  | c :: rest =>
      match pending with
      | S pending' => prepend [c] (unquote pending' rest)
      | O =>
          let v := byte_val c in
          if v =? 92 then
            match rest with
            | [] => None
            | e :: rest1 =>
                if byte_val e =? 117 then
                  match rest1 with
                  | h1 :: h2 :: h3 :: h4 :: rest2 =>
                      match getu4 h1 h2 h3 h4 with
                      | None => None
                      | Some rr =>
                          if utf16_IsSurrogate rr then
                            match rest2 with
                            | b :: u :: g1 :: g2 :: g3 :: g4 :: rest3 =>
                                let rr1 :=
                                  if (byte_val b =? 92) && (byte_val u =? 117)
                                  then getu4 g1 g2 g3 g4 else None in
                                match rr1 with
                                | Some low =>
                                    if utf16_DecodeRune rr low =? RuneError
                                    then prepend (utf8_EncodeRune RuneError)
                                                 (unquote 0 rest2)
                                    else prepend (utf8_EncodeRune (utf16_DecodeRune rr low))
                                                 (unquote 0 rest3)
                                | None =>
                                    prepend (utf8_EncodeRune RuneError) (unquote 0 rest2)
                                end
                            | _ => prepend (utf8_EncodeRune RuneError) (unquote 0 rest2)
                            end
                          else prepend (utf8_EncodeRune rr) (unquote 0 rest2)
                      end
                  | _ => None
                  end
                else
                  match simple_escape e with
                  | Some x => prepend [x] (unquote 0 rest1)
                  | None => None
                  end
            end
          else if (v =? 34) || (v <? 32) then None
          else if v <? 128 then prepend [c] (unquote 0 rest)
          else
            let (rr, size) := utf8_DecodeRune s in
            if (rr =? RuneError) && (size =? 1)%nat
            then prepend (utf8_EncodeRune RuneError) (unquote 0 rest)
            else prepend [c] (unquote (size - 1) rest)
      end
  end.

(** *** [encoding/json]: the syntax of values *)

Definition maxNestingDepth : Z := 10000.

(** A container being read: the items or members so far, latest first, and
    for an object the key whose value is awaited. *)
Inductive frame : Type :=
  | FArray (items_rev : list json)
  | FObject (members_rev : list (string * json)) (key : option string).

(** What may come next. *)
Inductive expect : Type :=
  | XValue | XValueOrEnd | XKeyOrEnd | XKey | XColon | XCommaOrEnd
  | XDone (v : json).

Definition parser_state : Type := list frame * expect.

(** A value is complete: it goes to the container on top, or ends the text. *)
Definition put (v : json) (stack : list frame) : option parser_state :=
  match stack with
  | [] => Some ([], XDone v)
  | FArray items_rev :: stack' => Some (FArray (v :: items_rev) :: stack', XCommaOrEnd)
  | FObject members_rev (Some key) :: stack' =>
      Some (FObject ((key, v) :: members_rev) None :: stack', XCommaOrEnd)
  | FObject _ None :: _ => None
  end.

Definition push (f : frame) (x : expect) (stack : list frame) : option parser_state :=
  if Z.of_nat (length stack) <? maxNestingDepth then Some (f :: stack, x) else None.

Definition begins_value (x : expect) : bool :=
  match x with
  | XValue | XValueOrEnd => true
  | _ => false
  end.

Definition parse_step (st : parser_state) (t : token) : option parser_state :=
  let (stack, x) := st in
  match t with
  | TLiteral v => if begins_value x then put v stack else None
  | TNumber literal =>
      if begins_value x then put (JNumber (string_of_list_ascii literal)) stack else None
  | TString raw =>
      match unquote 0 raw with
      | None => None
      | Some s =>
          if begins_value x then put (JString (string_of_list_ascii s)) stack
          else
            match x, stack with
            | (XKeyOrEnd | XKey), FObject members_rev None :: stack' =>
                Some (FObject members_rev (Some (string_of_list_ascii s)) :: stack', XColon)
            | _, _ => None
            end
      end
  | TLBracket => if begins_value x then push (FArray []) XValueOrEnd stack else None
  | TLBrace => if begins_value x then push (FObject [] None) XKeyOrEnd stack else None
  | TRBracket =>
      match x, stack with
      | (XValueOrEnd | XCommaOrEnd), FArray items_rev :: stack' =>
          put (JArray (rev items_rev)) stack'
      | _, _ => None
      end
  | TRBrace =>
      match x, stack with
      | (XKeyOrEnd | XCommaOrEnd), FObject members_rev None :: stack' =>
          put (JObject (rev members_rev)) stack'
      | _, _ => None
      end
  | TColon =>
      match x with
      | XColon => Some (stack, XValue)
      | _ => None
      end
  | TComma =>
      match x, stack with
      | XCommaOrEnd, FArray _ :: _ => Some (stack, XValue)
      | XCommaOrEnd, FObject _ _ :: _ => Some (stack, XKey)
      | _, _ => None
      end
  end.

Fixpoint parse_tokens (st : parser_state) (toks : list token) : option json :=
  match toks with
  | [] =>
      match st with
      | ([], XDone v) => Some v
      | _ => None
      end
  | t :: toks' =>
      match parse_step st t with
      | Some st' => parse_tokens st' toks'
      | None => None
      end
  end.

(** The value a text denotes, [None] when the text is not valid JSON. *)
Definition parse (data : string) : option json :=
  match lex Default (chars data) with
  | Some toks => parse_tokens ([], XValue) toks
  | None => None
  end.

(** *** [encoding/json]: [Unmarshal] into [environmentByRouteResponse] *)

Definition SyntaxError : error := errorString "json: syntax error".

Definition UnmarshalTypeError (value : string) : error :=
  errorString ("json: cannot unmarshal " +:+ value).

(** The first error met is the one reported; decoding goes on. *)
Definition saveError (e : error) (saved : option error) : option error :=
  match saved with
  | None => Some e
  | Some _ => saved
  end.

(** The JSON kind of a value, as a type error names it. *)
Definition kind_of (v : json) : string :=
  match v with
  | JNull => "null"
  | JBool _ => "bool"
  | JNumber _ => "number"
  | JString _ => "string"
  | JArray _ => "array"
  | JObject _ => "object"
  end.

(** [foldName], as far as it can reach an ASCII name: ASCII letters in upper
    case, and the two runes that fold to ASCII letters, U+017F (long s) and
    U+212A (Kelvin sign). *)
Fixpoint foldName (s : list ascii) : list ascii :=
  match s with
  | [] => []
  | c :: rest =>
      let v := byte_val c in
      if in_range 97 122 v then byte_of (v - 32) :: foldName rest
      else
        match rest with
        | c1 :: rest1 =>
            if (v =? 197) && (byte_val c1 =? 191) then "S"%char :: foldName rest1
            else
              match rest1 with
              | c2 :: rest2 =>
                  if (v =? 226) && (byte_val c1 =? 132) && (byte_val c2 =? 170)
                  then "K"%char :: foldName rest2
                  else c :: foldName rest
              | [] => c :: foldName rest
              end
        | [] => c :: foldName rest
        end
  end.

Definition same_fold (a b : string) : bool :=
  String.eqb (string_of_list_ascii (foldName (chars a)))
             (string_of_list_ascii (foldName (chars b))).

(** The field a key selects: the one of that name, else the first whose
    name is the key up to case. *)
Definition field_of (names : list string) (key : string) : option string :=
  match find (String.eqb key) names with
  | Some name => Some name
  | None => find (same_fold key) names
  end.

(** [strconv.ParseInt(literal, 10, 64)] on a JSON number: a value for an
    optional minus sign and digits, within 64 bits. *)
Definition parse_int (literal : string) : option Z :=
  let digits (l : list ascii) :=
    if forallb is_digit l && negb (Nat.eqb (length l) 0)
    then Some (fold_left (fun acc c => acc * 10 + (byte_val c - 48)) l 0)
    else None in
  let n :=
    match chars literal with
    | c :: l => if byte_val c =? 45 then option_map Z.opp (digits l) else digits (c :: l)
    | [] => None
    end in
  match n with
  | Some z => if in_range (- 2 ^ 63) (2 ^ 63 - 1) z then Some z else None
  | None => None
  end.

Definition decode_string (v : json) (cur : string) (saved : option error)
  : string * option error :=
  match v with
  | JNull => (cur, saved)
  | JString s => (s, saved)
  | _ => (cur, saveError (UnmarshalTypeError (kind_of v)) saved)
  end.

Definition decode_int (v : json) (cur : Z) (saved : option error)
  : Z * option error :=
  match v with
  | JNull => (cur, saved)
  | JNumber literal =>
      match parse_int literal with
      | Some n => (n, saved)
      | None => (cur, saveError (UnmarshalTypeError ("number " +:+ literal)) saved)
      end
  | _ => (cur, saveError (UnmarshalTypeError (kind_of v)) saved)
  end.

(** An object decoded into a struct: each member in turn goes to the field
    its key selects, if any; other values are type errors, [null] apart. *)
Definition decode_struct {T : Type} (names : list string)
    (field : string -> json -> T -> option error -> T * option error)
    (v : json) (cur : T) (saved : option error) : T * option error :=
  match v with
  | JNull => (cur, saved)
  | JObject members =>
      fold_left
        (fun (acc : T * option error) (kv : string * json) =>
           match field_of names (fst kv) with
           | Some name => field name (snd kv) (fst acc) (snd acc)
           | None => acc
           end)
        members (cur, saved)
  | _ => (cur, saveError (UnmarshalTypeError (kind_of v)) saved)
  end.

Definition decode_environmentByRoute :=
  decode_struct ["id"; "name"]
    (fun name v (cur : environmentByRoute_t) saved =>
       if String.eqb name "id" then
         let (n, saved') := decode_int v (ID cur) saved in
         ({| ID := n; Name := Name cur |}, saved')
       else
         let (s, saved') := decode_string v (Name cur) saved in
         ({| ID := ID cur; Name := s |}, saved')).

Definition decode_data :=
  decode_struct ["environmentByRoute"]
    (fun _ v (cur : data_t) saved =>
       let (e, saved') := decode_environmentByRoute v (EnvironmentByRoute cur) saved in
       ({| EnvironmentByRoute := e |}, saved')).

Definition decode_error :=
  decode_struct ["message"]
    (fun _ v (cur : error_t) saved =>
       let (m, saved') := decode_string v (Message cur) saved in
       ({| Message := m |}, saved')).

(** An array decoded into the slice: the element at an index the slice
    already has is decoded into, a further one starts from the zero value,
    and the slice ends up as long as the array. *)
Fixpoint decode_elements (items : list json) (cur : list error_t)
    (saved : option error) : list error_t * option error :=
  match items with
  | [] => ([], saved)
  | v :: items' =>
      let (old, cur') :=
        match cur with
        | e :: cur' => (e, cur')
        | [] => ({| Message := "" |}, [])
        end in
      let (e, saved1) := decode_error v old saved in
      let (es, saved2) := decode_elements items' cur' saved1 in
      (e :: es, saved2)
  end.

Definition decode_errors (v : json) (cur : list error_t) (saved : option error)
  : list error_t * option error :=
  match v with
  | JNull => ([], saved)
  | JArray items => decode_elements items cur saved
  | _ => (cur, saveError (UnmarshalTypeError (kind_of v)) saved)
  end.

Definition decode_response :=
  decode_struct ["data"; "errors"]
    (fun name v (cur : environmentByRouteResponse) saved =>
       if String.eqb name "data" then
         let (d, saved') := decode_data v (Data cur) saved in
         ({| Data := d; Errors := Errors cur |}, saved')
       else
         let (es, saved') := decode_errors v (Errors cur) saved in
         ({| Data := Data cur; Errors := es |}, saved')).

(** [json.Unmarshal(data, &v)]: a text that is not valid JSON leaves [v]
    as it was. *)
Definition Unmarshal (data : string) (v : environmentByRouteResponse)
  : environmentByRouteResponse * option error :=
  match parse data with
  | None => (v, Some SyntaxError)
  | Some j => decode_response j v None
  end.

#[export] Instance codecs : Codecs := {|
  base64_RawURLEncoding_DecodeString := DecodeString;
  json_Marshal := Marshal;
  json_Unmarshal := Unmarshal
|}.

(** JSON texts are written with apostrophes for their double quotes. *)
Definition quoted (s : string) : string :=
  string_of_list_ascii
    (map (fun c => if Ascii.eqb c "'"%char then dquote else c) (chars s)).

End GoStd.

(** ** Scenarios

    Sessions and remote services on which the properties below are run,
    with the reference codecs. *)

Module Scenario.
Import GoStd.

Definition background : Context := {| ctx_Err := None |}.

(** A session with a three-part token, bound for a route with trailing
    slashes. *)
Definition session : SessionState :=
  {| AccessToken := "eyJhbGciOiJSUzI1NiJ9.eyJzdWIiOiIxIn0.c2ln";
     AppRedirect := "https://example.com/app///" |}.

(** A session whose destination is slashes only and whose token has two
    parts. *)
Definition session_without_route : SessionState :=
  {| AccessToken := "opaque.token"; AppRedirect := "///" |}.

Definition complete (data : string) : ReadCloser :=
  {| read_data := data; read_err := None; close_err := None |}.

(** A body whose read broke off after [data]. *)
Definition truncated (data : string) : ReadCloser :=
  {| read_data := data;
     read_err := Some (errorString "unexpected EOF");
     close_err := None |}.

(** A service that answers every request with one response. *)
Definition answering (code : Z) (body : ReadCloser) : Network :=
  fun _ => inl {| StatusCode := code; Body := body |}.

(** A service that cannot be reached. *)
Definition unreachable : Network :=
  fun _ => inr (errorString "dial tcp: connection refused").

Definition body_prod : string :=
  quoted "{'data':{'environmentByRoute':{'id':7,'name':'prod'}}}".
Definition body_no_environment : string :=
  quoted "{'data':{'environmentByRoute':null}}".
Definition body_errors : string :=
  quoted "{'errors':[{'message':'Unauthorized'},{'message':'later'}],'data':{'environmentByRoute':{'id':7,'name':'prod'}}}".
Definition body_html : string := "<html>Bad Gateway</html>".

(** The request [Authorize] sends for [session]. *)
Definition request : Request :=
  outbound background session (fst (Marshal (requestBody (route_of session)))).

End Scenario.

(** The errors of [Authorize] by kind, each with what it carries, and the
    value the code builds for it. *)
Inductive ErrorKind : Type :=
  | KMissingDestination
  | KRequestEncodingFailed (cause : error)
  | KRequestCreationFailed (cause : error)
  | KTransportFailure (cause : error)
  | KUnexpectedStatus (code : Z)
  | KResponseDecodeFailed (cause : error)
  | KRemoteGraphQLError (message : string).

Definition error_of (k : ErrorKind) : error :=
  match k with
  | KMissingDestination => MissingDestination
  | KRequestEncodingFailed cause => RequestEncodingFailed cause
  | KRequestCreationFailed cause => RequestCreationFailed cause
  | KTransportFailure cause => TransportFailure cause
  | KUnexpectedStatus code => UnexpectedStatus code
  | KResponseDecodeFailed cause => ResponseDecodeFailed cause
  | KRemoteGraphQLError message => RemoteGraphQLError message
  end.

(** ** Proof steps *)

(** The goal [exists allowed err, outcome _ = Returned (allowed, err) /\ _]
    on a path that returns [false] with an error. *)
Ltac returns_error :=
  eexists _, _; split; [reflexivity|]; split; [trivial | discriminate].

(** * Properties *)

(** ** The effect monad *)

(** [M] is a monad: the three laws. *)
Lemma bind_ret_l {A B : Type} (a : A) (k : A -> M B) : mret a ≫= k = k a.
Proof. unfold mret, M_ret, ret, mbind, M_bind, bind. now destruct (k a). Qed.

Lemma bind_ret_r {A : Type} (m : M A) : m ≫= mret = m.
Proof.
  destruct m as [t [a|msg]]; unfold mret, M_ret, ret, mbind, M_bind, bind;
    [now rewrite app_nil_r | reflexivity].
Qed.

Lemma bind_assoc {A B D : Type} (m : M A) (k : A -> M B) (h : B -> M D) :
  (m ≫= k) ≫= h = m ≫= (fun a => k a ≫= h).
Proof.
  destruct m as [t [a|msg]]; unfold mbind, M_bind, bind; [|reflexivity].
  destruct (k a) as [t' [b|msg]]; [|reflexivity].
  destruct (h b) as [t'' r]. now rewrite app_assoc.
Qed.

(** A computation that returns is followed by its continuation. *)
Lemma run_bind {A B : Type} (m : M A) (k : A -> M B) (a : A) :
  outcome m = Returned a ->
  m ≫= k = (events m ++ events (k a), outcome (k a)).
Proof.
  destruct m as [t r]; cbn; intros ->.
  unfold mbind, M_bind, bind. now destruct (k a).
Qed.

(** A panic ends the computation: what would follow does not run. *)
Lemma run_bind_panic {A B : Type} (m : M A) (k : A -> M B) (msg : string) :
  outcome m = Panicked msg ->
  m ≫= k = (events m, Panicked msg).
Proof. destruct m as [t r]; cbn; now intros ->. Qed.

(** The deferred call runs last, after a return and after a panic alike,
    and leaves the outcome as it is. *)
Lemma run_defer {A : Type} (d : M unit) (body : M A) :
  defer d body = (events body ++ events d, outcome body).
Proof. now destruct body. Qed.

(** Indexing within the length does not panic. *)
Lemma at_index_in_range {A : Type} (a : list A) (i : nat) :
  (i < length a)%nat ->
  exists x, nth_error a i = Some x /\ at_index a i = mret x.
Proof.
  intros Hi. unfold at_index.
  destruct (nth_error a i) as [x|] eqn:E.
  - now exists x.
  - apply nth_error_None in E. lia.
Qed.

(** ** The steps of [Authorize] *)

Section Steps.
Context `{C : Codecs}.

Lemma inspectToken_run (token : string) :
  inspectToken token = (inspection_log token, Returned tt).
Proof.
  unfold inspectToken, inspection_log.
  destruct (strings_Split token ".") as [|p0 [|p1 [|p2 [|p3 rest]]]]; try reflexivity.
  cbn.
  destruct (base64_RawURLEncoding_DecodeString p0) as [header e0].
  destruct (base64_RawURLEncoding_DecodeString p1) as [payload e1].
  reflexivity.
Qed.

Lemma outbound_built (c : Context) (s : SessionState) (bodyJSON : string) :
  Request_Header_Set
    (Request_Header_Set
       {| Method := "POST"; URL := lagoonGraphqlEndpoint; Header := ∅;
          ReqBody := bodyJSON; ReqContext := c |}
       "Authorization" ("Bearer " +:+ AccessToken s))
    "Content-Type" "application/json"
  = outbound c s bodyJSON.
Proof.
  (* both header maps have the same two literal keys: they compute to the
     same trie, whatever the token is *)
  unfold Request_Header_Set, outbound, Header_Set; cbn. reflexivity.
Qed.

Lemma interpret_not_ok (resp : Response) :
  StatusCode resp <> http_StatusOK ->
  interpret resp = ([], Returned (false, Some (UnexpectedStatus (StatusCode resp)))).
Proof.
  intros Hne. unfold interpret.
  destruct (Z.eqb_spec (StatusCode resp) http_StatusOK) as [E|E]; [contradiction|].
  reflexivity.
Qed.

Lemma interpret_ok (resp : Response) :
  StatusCode resp = http_StatusOK ->
  interpret resp =
    ([ReadAll (Body resp);
      LogPrintf (fmt_Sprintf [lit "Lagoon Authorization returned:"; lit newline;
                              verb_s (read_data (Body resp)); lit newline]);
      Close (Body resp)],
     Returned (decision (decoded resp))).
Proof.
  intros Hok. unfold interpret, decoded, decision.
  rewrite Hok, Z.eqb_refl. cbn.
  destruct (json_Unmarshal (read_data (Body resp)) zero_environmentByRouteResponse)
    as [gqlResp [cause|]]; [reflexivity|].
  destruct (Errors gqlResp) as [|first rest]; cbn; [|reflexivity].
  now destruct (String.eqb _ _).
Qed.

End Steps.

(** ** The paths of [Authorize] *)

Section Paths.
Context `{C : Codecs}.
Variables (net : Network) (s : SessionState).

Lemma Authorize_start (k : M (bool * option error)) :
  (logger_Printf [lit "Checking Lagoon provider for authorization on ";
                  verb_s (AppRedirect s); lit newline];;
   inspectToken (AccessToken s);; k)
  = (preamble s ++ events k, outcome k).
Proof.
  rewrite inspectToken_run. unfold preamble.
  now destruct k as [t r].
Qed.

Lemma Authorize_missing (ctx : option Context) :
  route_of s = "" ->
  Authorize net ctx s = (preamble s, Returned (false, Some MissingDestination)).
Proof.
  intros Hroute. unfold Authorize. rewrite Authorize_start.
  fold (route_of s). rewrite Hroute. cbn. now rewrite app_nil_r.
Qed.

Lemma Authorize_marshal_failed (ctx : option Context) (bodyJSON : string) (cause : error) :
  route_of s <> "" ->
  json_Marshal (requestBody (route_of s)) = (bodyJSON, Some cause) ->
  Authorize net ctx s = (preamble s, Returned (false, Some (RequestEncodingFailed cause))).
Proof.
  intros Hroute Hmarshal. unfold Authorize. rewrite Authorize_start.
  fold (route_of s). apply String.eqb_neq in Hroute. rewrite Hroute, Hmarshal.
  cbn. now rewrite app_nil_r.
Qed.

Lemma Authorize_nil_context (bodyJSON : string) :
  route_of s <> "" ->
  json_Marshal (requestBody (route_of s)) = (bodyJSON, None) ->
  Authorize net None s =
    (preamble s,
     Returned (false, Some (RequestCreationFailed (errorString "net/http: nil Context")))).
Proof.
  intros Hroute Hmarshal. unfold Authorize. rewrite Authorize_start.
  fold (route_of s). apply String.eqb_neq in Hroute. rewrite Hroute, Hmarshal.
  cbn. now rewrite app_nil_r.
Qed.

Lemma Authorize_transport (c : Context) (bodyJSON : string) (cause : error) :
  route_of s <> "" ->
  json_Marshal (requestBody (route_of s)) = (bodyJSON, None) ->
  net (outbound c s bodyJSON) = inr cause ->
  Authorize net (Some c) s =
    (preamble s ++ [ClientDo (outbound c s bodyJSON)],
     Returned (false, Some (TransportFailure cause))).
Proof.
  intros Hroute Hmarshal Hnet. unfold Authorize. rewrite Authorize_start.
  fold (route_of s). apply String.eqb_neq in Hroute. rewrite Hroute, Hmarshal.
  unfold http_NewRequestWithContext. rewrite outbound_built.
  unfold client_Do. cbn. now rewrite Hnet.
Qed.

Lemma Authorize_response (c : Context) (bodyJSON : string) (resp : Response) :
  route_of s <> "" ->
  json_Marshal (requestBody (route_of s)) = (bodyJSON, None) ->
  net (outbound c s bodyJSON) = inl resp ->
  Authorize net (Some c) s =
    (preamble s ++ ClientDo (outbound c s bodyJSON) :: events (interpret resp),
     outcome (interpret resp)).
Proof.
  intros Hroute Hmarshal Hnet. unfold Authorize. rewrite Authorize_start.
  fold (route_of s). apply String.eqb_neq in Hroute. rewrite Hroute, Hmarshal.
  unfold http_NewRequestWithContext. rewrite outbound_built.
  unfold client_Do. cbn. rewrite Hnet.
  now destruct (interpret resp).
Qed.

End Paths.

(** ** What a call hands to the network *)

Section Traffic.
Context `{C : Codecs}.

Lemma issued_app (t1 t2 : list Event) : issued (t1 ++ t2) = issued t1 ++ issued t2.
Proof. apply omap_app. Qed.

Lemma issued_inspection_log (token : string) : issued (inspection_log token) = [].
Proof.
  unfold inspection_log.
  now destruct (strings_Split token ".") as [|p0 [|p1 [|p2 [|p3 rest]]]].
Qed.

Lemma issued_preamble (s : SessionState) : issued (preamble s) = [].
Proof. unfold preamble. cbn. apply issued_inspection_log. Qed.

Lemma issued_interpret (resp : Response) : issued (events (interpret resp)) = [].
Proof.
  destruct (Z.eq_dec (StatusCode resp) http_StatusOK) as [E|E].
  - now rewrite (interpret_ok resp E).
  - now rewrite (interpret_not_ok resp E).
Qed.

(** The requests of a call: one at most, and then the request of
    [outbound] for the encoded payload. *)
Lemma issued_Authorize (net : Network) (ctx : option Context) (s : SessionState) :
  issued (events (Authorize net ctx s)) =
  match ctx, json_Marshal (requestBody (route_of s)) with
  | Some c, (bodyJSON, None) =>
      if String.eqb (route_of s) "" then [] else [outbound c s bodyJSON]
  | _, _ => []
  end.
Proof.
  destruct (String.eqb_spec (route_of s) "") as [Hroute|Hroute].
  { rewrite (Authorize_missing net s ctx Hroute). cbn [events fst].
    rewrite issued_preamble.
    now destruct ctx, (json_Marshal (requestBody (route_of s))) as [b [e|]]. }
  destruct (json_Marshal (requestBody (route_of s))) as [b [cause|]] eqn:Hm.
  { rewrite (Authorize_marshal_failed net s ctx b cause Hroute Hm).
    cbn [events fst]. rewrite issued_preamble. now destruct ctx. }
  destruct ctx as [c|].
  2:{ rewrite (Authorize_nil_context net s b Hroute Hm).
      cbn [events fst]. apply issued_preamble. }
  destruct (net (outbound c s b)) as [resp|cause] eqn:Hdo.
  - rewrite (Authorize_response net s c b resp Hroute Hm Hdo). cbn [events fst].
    rewrite issued_app, issued_preamble.
    change (ClientDo ?r :: ?t) with ([ClientDo r] ++ t). rewrite issued_app.
    change (fst (interpret resp)) with (events (interpret resp)).
    now rewrite issued_interpret.
  - rewrite (Authorize_transport net s c b cause Hroute Hm Hdo). cbn [events fst].
    now rewrite issued_app, issued_preamble.
Qed.

(** The only way to a response: a non-empty route, a payload that
    marshals, a non-nil context, and the network's answer to the one request
    of [outbound]. *)
Lemma receives_inv (net : Network) (ctx : option Context) (s : SessionState)
    (resp : Response) :
  receives net ctx s resp ->
  exists c bodyJSON,
    ctx = Some c /\ route_of s <> "" /\
    json_Marshal (requestBody (route_of s)) = (bodyJSON, None) /\
    net (outbound c s bodyJSON) = inl resp.
Proof.
  intros (req & Hin & Hnet).
  destruct (String.eqb_spec (route_of s) "") as [Hroute|Hroute].
  { rewrite (Authorize_missing net s ctx Hroute) in Hin.
    cbn [events fst] in Hin. rewrite issued_preamble in Hin. contradiction. }
  destruct (json_Marshal (requestBody (route_of s))) as [bodyJSON [cause|]] eqn:Hm.
  { rewrite (Authorize_marshal_failed net s ctx bodyJSON cause Hroute Hm) in Hin.
    cbn [events fst] in Hin. rewrite issued_preamble in Hin. contradiction. }
  destruct ctx as [c|].
  2:{ rewrite (Authorize_nil_context net s bodyJSON Hroute Hm) in Hin.
      cbn [events fst] in Hin. rewrite issued_preamble in Hin. contradiction. }
  exists c, bodyJSON. repeat split; trivial.
  destruct (net (outbound c s bodyJSON)) as [resp'|cause] eqn:Hdo.
  - rewrite (Authorize_response net s c bodyJSON resp' Hroute Hm Hdo) in Hin.
    cbn [events fst] in Hin.
    rewrite issued_app, issued_preamble in Hin.
    change (ClientDo ?r :: ?t) with ([ClientDo r] ++ t) in Hin.
    rewrite issued_app in Hin.
    change (fst (interpret resp')) with (events (interpret resp')) in Hin.
    rewrite issued_interpret in Hin.
    destruct Hin as [<-|[]]. congruence.
  - rewrite (Authorize_transport net s c bodyJSON cause Hroute Hm Hdo) in Hin.
    cbn [events fst] in Hin. rewrite issued_app, issued_preamble in Hin.
    destruct Hin as [<-|[]]. congruence.
Qed.

(** Conversely, those four conditions make the call receive [resp]. *)
Lemma receives_intro (net : Network) (c : Context) (s : SessionState)
    (bodyJSON : string) (resp : Response) :
  route_of s <> "" ->
  json_Marshal (requestBody (route_of s)) = (bodyJSON, None) ->
  net (outbound c s bodyJSON) = inl resp ->
  receives net (Some c) s resp.
Proof.
  intros Hroute Hm Hdo. exists (outbound c s bodyJSON). split; [|exact Hdo].
  rewrite (Authorize_response net s c bodyJSON resp Hroute Hm Hdo).
  cbn [events fst]. rewrite issued_app. apply in_or_app. right. now left.
Qed.

(** The outcome of a call that received [resp] is that of [interpret]. *)
Lemma receives_outcome (net : Network) (ctx : option Context) (s : SessionState)
    (resp : Response) :
  receives net ctx s resp ->
  outcome (Authorize net ctx s) = outcome (interpret resp).
Proof.
  intros Hrecv. destruct (receives_inv _ _ _ _ Hrecv) as (c & b & -> & Hr & Hm & Hdo).
  now rewrite (Authorize_response net s c b resp Hr Hm Hdo).
Qed.

End Traffic.

(** ** The error kinds *)

Lemma append_empty_r (a : string) : a +:+ "" = a.
Proof. induction a as [|c a IH]; simpl; [reflexivity | now f_equal]. Qed.

Lemma append_inj_l (a b c : string) : a +:+ b = a +:+ c -> b = c.
Proof.
  induction a as [|x a IH]; simpl; [trivial|].
  intros Heq. injection Heq as Heq. now apply IH.
Qed.

Lemma to_int_proper (n : Z) : Z.to_int n <> Decimal.Pos Decimal.Nil /\
                              Z.to_int n <> Decimal.Neg Decimal.Nil.
Proof.
  destruct n as [|p|p]; cbn; split; try discriminate;
    intros [= Hp]; now apply DecimalPos.Unsigned.to_uint_nonnil in Hp.
Qed.

(** The decimal numeral determines the integer. *)
Lemma strconv_Itoa_inj (n m : Z) : strconv_Itoa n = strconv_Itoa m -> n = m.
Proof.
  unfold strconv_Itoa. intros Heq.
  assert (Hs : Some (Z.to_int n) = Some (Z.to_int m)).
  { destruct (to_int_proper n) as [Hn Hn'], (to_int_proper m) as [Hm Hm'].
    rewrite <- (NilZero.isi (Z.to_int n) Hn Hn'), <- (NilZero.isi (Z.to_int m) Hm Hm').
    now rewrite Heq. }
  injection Hs as Hs.
  rewrite <- (DecimalZ.of_to n), <- (DecimalZ.of_to m). now rewrite Hs.
Qed.

(** An [UnexpectedStatus] error carries its status code. *)
Lemma UnexpectedStatus_inj (code code' : Z) :
  UnexpectedStatus code = UnexpectedStatus code' -> code = code'.
Proof.
  unfold UnexpectedStatus, fmt_Errorf; cbn. intros [= Heq].
  rewrite !append_empty_r in Heq. now apply strconv_Itoa_inj.
Qed.

(** A [RemoteGraphQLError] carries its message. *)
Lemma RemoteGraphQLError_inj (message message' : string) :
  RemoteGraphQLError message = RemoteGraphQLError message' -> message = message'.
Proof.
  unfold RemoteGraphQLError, fmt_Errorf; cbn. intros [= Heq].
  now rewrite !append_empty_r in Heq.
Qed.

(** The wrapping kinds wrap their cause. *)
Lemma ResponseDecodeFailed_Unwrap (cause : error) :
  Unwrap (ResponseDecodeFailed cause) = Some cause.
Proof. reflexivity. Qed.

Lemma TransportFailure_Unwrap (cause : error) :
  Unwrap (TransportFailure cause) = Some cause.
Proof. reflexivity. Qed.

(** Errors of different kinds are different values. *)
Lemma MissingDestination_not_UnexpectedStatus (code : Z) :
  MissingDestination <> UnexpectedStatus code.
Proof. unfold MissingDestination, UnexpectedStatus, fmt_Errorf; cbn. discriminate. Qed.

Lemma ResponseDecodeFailed_not_TransportFailure (cause cause' : error) :
  ResponseDecodeFailed cause <> TransportFailure cause'.
Proof. unfold ResponseDecodeFailed, TransportFailure, fmt_Errorf; cbn. discriminate. Qed.

Lemma RemoteGraphQLError_not_TransportFailure (message : string) (cause : error) :
  RemoteGraphQLError message <> TransportFailure cause.
Proof. unfold RemoteGraphQLError, TransportFailure, fmt_Errorf; cbn. discriminate. Qed.

Lemma RemoteGraphQLError_not_ResponseDecodeFailed (message : string) (cause : error) :
  RemoteGraphQLError message <> ResponseDecodeFailed cause.
Proof. unfold RemoteGraphQLError, ResponseDecodeFailed, fmt_Errorf; cbn. discriminate. Qed.

(** No decision on a decoded body is a transport failure, and only a
    decoding error makes it a [ResponseDecodeFailed]. *)
Lemma decision_not_TransportFailure
    (d : environmentByRouteResponse * option error) (b : bool) (cause : error) :
  decision d <> (b, Some (TransportFailure cause)).
Proof.
  destruct d as [r [c|]]; cbn [decision].
  - intros Heq.
    assert (He : ResponseDecodeFailed c = TransportFailure cause) by congruence.
    now apply ResponseDecodeFailed_not_TransportFailure in He.
  - destruct (Errors r) as [|first rest]; [discriminate|].
    intros Heq.
    assert (He : RemoteGraphQLError (Message first) = TransportFailure cause)
      by congruence.
    now apply RemoteGraphQLError_not_TransportFailure in He.
Qed.

Lemma decision_decoded_not_ResponseDecodeFailed
    (r : environmentByRouteResponse) (b : bool) (cause : error) :
  decision (r, None) <> (b, Some (ResponseDecodeFailed cause)).
Proof.
  cbn [decision]. destruct (Errors r) as [|first rest]; [discriminate|].
  intros Heq.
  assert (He : RemoteGraphQLError (Message first) = ResponseDecodeFailed cause)
    by congruence.
  now apply RemoteGraphQLError_not_ResponseDecodeFailed in He.
Qed.

(** ** Token parts *)

Lemma genSplit_dot_cons (cur_rev : list ascii) (c : ascii) (s : string) :
  genSplit "." 0 cur_rev (String c s) =
  if Ascii.eqb c "." then reversed cur_rev :: genSplit "." 0 [] s
  else genSplit "." 0 (c :: cur_rev) s.
Proof.
  cbn [genSplit String.prefix String.length Nat.sub].
  destruct (ascii_dec "." c) as [<-|Hc].
  - now destruct s.
  - destruct (Ascii.eqb_spec c "."); [congruence | reflexivity].
Qed.

Lemma genSplit_dot_length (cur_rev : list ascii) (s : string) :
  length (genSplit "." 0 cur_rev s) = S (count_byte "." s).
Proof.
  revert cur_rev. induction s as [|c s IH]; intros cur_rev; [reflexivity|].
  rewrite genSplit_dot_cons. cbn [count_byte].
  destruct (Ascii.eqb c "."); cbn [length]; now rewrite IH.
Qed.

(** A token has one part more than it has dots: three parts are two dots. *)
Lemma Split_dot_length (token : string) :
  length (strings_Split token ".") = S (count_byte "." token).
Proof. apply genSplit_dot_length. Qed.

Lemma reversed_cons (c : ascii) (l : list ascii) :
  reversed (c :: l) = reversed l +:+ String c "".
Proof.
  unfold reversed. cbn [rev].
  induction (rev l) as [|a r IH]; [reflexivity|].
  cbn. now rewrite IH.
Qed.

Lemma append_assoc (a b c : string) : (a +:+ b) +:+ c = a +:+ (b +:+ c).
Proof. induction a as [|x a IH]; simpl; [reflexivity | now rewrite IH]. Qed.

Lemma genSplit_dot_join (cur_rev : list ascii) (s : string) :
  String.concat "." (genSplit "." 0 cur_rev s) = reversed cur_rev +:+ s.
Proof.
  revert cur_rev. induction s as [|c s IH]; intros cur_rev.
  - cbn. induction (reversed cur_rev) as [|a r IHr]; [reflexivity|].
    simpl. now rewrite <- IHr.
  - rewrite genSplit_dot_cons.
    destruct (Ascii.eqb_spec c ".") as [->|Hc].
    + specialize (IH []).
      destruct (genSplit "." 0 [] s) as [|p ps] eqn:Hs.
      { pose proof (genSplit_dot_length [] s) as Hlen. now rewrite Hs in Hlen. }
      change (String.concat "." (reversed cur_rev :: p :: ps))
        with (reversed cur_rev +:+ "." +:+ String.concat "." (p :: ps)).
      now rewrite IH.
    + rewrite IH, reversed_cons, append_assoc. reflexivity.
Qed.

(** The parts of a token, joined by dots, are the token. *)
Lemma Split_dot_join (token : string) :
  String.concat "." (strings_Split token ".") = token.
Proof. apply genSplit_dot_join. Qed.

(** ** Route normalization *)

Lemma TrimRight_slash_cons (c : ascii) (s : string) :
  strings_TrimRight (String c s) "/" =
  match strings_TrimRight s "/" with
  | EmptyString => if Ascii.eqb c "/" then EmptyString else String c EmptyString
  | t => String c t
  end.
Proof.
  cbn [strings_TrimRight]. unfold byte_in. cbn. now rewrite orb_false_r.
Qed.

(** What is cut off is a run of slashes. *)
Lemma TrimRight_decompose (s : string) :
  exists n, s = strings_TrimRight s "/" +:+ slashes n.
Proof.
  induction s as [|c s [n IH]].
  - now exists O.
  - rewrite TrimRight_slash_cons.
    destruct (strings_TrimRight s "/") as [|c' t] eqn:Ht.
    + destruct (Ascii.eqb_spec c "/") as [->|Hc].
      * exists (S n). cbn in *. now f_equal.
      * exists n. cbn in *. now f_equal.
    + exists n. cbn in *. now f_equal.
Qed.

(** What is left does not end in a slash. *)
Lemma TrimRight_no_trailing_slash (s : string) :
  ends_with_slash (strings_TrimRight s "/") = false.
Proof.
  induction s as [|c s IH]; [reflexivity|].
  rewrite TrimRight_slash_cons.
  destruct (strings_TrimRight s "/") as [|c' t] eqn:Ht.
  - destruct (Ascii.eqb_spec c "/") as [->|Hc]; cbn; [reflexivity|].
    now apply Ascii.eqb_neq.
  - exact IH.
Qed.

Lemma TrimRight_slashes (n : nat) : strings_TrimRight (slashes n) "/" = "".
Proof.
  induction n as [|n IH]; [reflexivity|].
  cbn [slashes]. now rewrite TrimRight_slash_cons, IH.
Qed.

(** Only trailing slashes go: a string that does not end in a slash comes
    back whole, whatever run of slashes follows it. *)
Lemma TrimRight_append_slashes (r : string) (n : nat) :
  ends_with_slash r = false ->
  strings_TrimRight (r +:+ slashes n) "/" = r.
Proof.
  induction r as [|c r IH]; intros Hend.
  - apply TrimRight_slashes.
  - change (String c r +:+ slashes n) with (String c (r +:+ slashes n)).
    rewrite TrimRight_slash_cons.
    destruct r as [|c' r'].
    + cbn in Hend. cbn [String.append]. rewrite TrimRight_slashes. now rewrite Hend.
    + now rewrite IH.
Qed.

(** The normalized route is empty exactly for a run of slashes. *)
Lemma route_empty_iff (s : SessionState) :
  route_of s = "" <-> exists n, AppRedirect s = slashes n.
Proof.
  unfold route_of. split.
  - intros Hr. destruct (TrimRight_decompose (AppRedirect s)) as [n Hn].
    exists n. now rewrite Hr in Hn.
  - intros [n ->]. apply TrimRight_slashes.
Qed.

(** ** The claims of the specification *)

Section Claims.
Context `{C : Codecs}.
Implicit Types (net : Network) (ctx : option Context) (s : SessionState).
Implicit Types (resp : Response) (r : environmentByRouteResponse).

(** C1: when [Authorize] receives an HTTP 200 response whose body decodes
    into the response shape with an empty [errors] list, it returns
    [allowed = (data.environmentByRoute.name != "")] and a nil error: a
    non-empty name gives [(true, nil)], an empty (or absent, hence zero)
    name gives [(false, nil)].  The result is a function of the name alone;
    no other field, such as [id], takes part in it. *)
Theorem Authorize_allowed_iff_name net ctx s resp r :
  receives net ctx s resp ->
  StatusCode resp = http_StatusOK ->
  decoded resp = (r, None) ->
  Errors r = [] ->
  let name := Name (EnvironmentByRoute (Data r)) in
  outcome (Authorize net ctx s) = Returned (negb (String.eqb name ""), None) /\
  (name <> "" -> outcome (Authorize net ctx s) = Returned (true, None)) /\
  (name = "" -> outcome (Authorize net ctx s) = Returned (false, None)).
Proof.
  intros Hrecv Hok Hdec Herrs name.
  assert (Hout : outcome (Authorize net ctx s)
                 = Returned (negb (String.eqb name ""), None)).
  { rewrite (receives_outcome _ _ _ _ Hrecv), (interpret_ok resp Hok).
    cbn [outcome snd]. rewrite Hdec. cbn [decision]. now rewrite Herrs. }
  split; [exact Hout|]. rewrite Hout. split.
  - intros Hname. apply String.eqb_neq in Hname. now rewrite Hname.
  - intros Hname. now rewrite Hname.
Qed.

(** C2: for a session whose [AppRedirect] is empty or made of slashes only,
    [Authorize] returns [(false, MissingDestination)] at once: its events
    are the log lines of its first steps, no request is handed to the
    client, and neither the network nor the context (not even a nil one,
    on which building a request would fail) has any part in the run. *)
Theorem Authorize_missing_destination net ctx s (n : nat) :
  AppRedirect s = slashes n ->
  Authorize net ctx s = (preamble s, Returned (false, Some MissingDestination)) /\
  issued (events (Authorize net ctx s)) = [] /\
  only_logs (events (Authorize net ctx s)).
Proof.
  intros Hslashes.
  assert (Hroute : route_of s = "") by (apply route_empty_iff; now exists n).
  rewrite (Authorize_missing net s ctx Hroute). cbn [events fst].
  repeat split.
  - apply issued_preamble.
  - unfold only_logs, preamble. constructor; [now eexists|].
    unfold inspection_log.
    destruct (strings_Split (AccessToken s) ".") as [|p0 [|p1 [|p2 [|p3 rest]]]];
      repeat constructor; now eexists.
Qed.

(** C3: when the decoded response has a non-empty [errors] list,
    [Authorize] returns [(false, RemoteGraphQLError)] with the message of
    the first element of the list, whatever [data] holds: the list is
    looked at before the name. *)
Theorem Authorize_remote_error_first net ctx s resp r (first : error_t)
    (rest : list error_t) :
  receives net ctx s resp ->
  StatusCode resp = http_StatusOK ->
  decoded resp = (r, None) ->
  Errors r = first :: rest ->
  outcome (Authorize net ctx s)
    = Returned (false, Some (RemoteGraphQLError (Message first))) /\
  Error (RemoteGraphQLError (Message first)) = "GraphQL error: " +:+ Message first.
Proof.
  intros Hrecv Hok Hdec Herrs. split.
  - rewrite (receives_outcome _ _ _ _ Hrecv), (interpret_ok resp Hok).
    cbn [outcome snd]. rewrite Hdec. cbn [decision]. now rewrite Herrs.
  - unfold RemoteGraphQLError, fmt_Errorf. cbn. now rewrite append_empty_r.
Qed.

(** C4: when the response's status code is not 200, [Authorize] returns
    [(false, UnexpectedStatus)] with that code in the error.  The body is
    left alone: the run ends with the call of the client, the body stream is
    not read, and another response with the same code, whatever its body,
    gives the same run. *)
Theorem Authorize_unexpected_status net ctx s resp :
  receives net ctx s resp ->
  StatusCode resp <> http_StatusOK ->
  outcome (Authorize net ctx s)
    = Returned (false, Some (UnexpectedStatus (StatusCode resp))) /\
  Error (UnexpectedStatus (StatusCode resp))
    = "unexpected GraphQL status: " +:+ strconv_Itoa (StatusCode resp) /\
  (exists req, events (Authorize net ctx s) = preamble s ++ [ClientDo req]) /\
  bodies_read (events (Authorize net ctx s)) = [] /\
  (forall net' resp',
     receives net' ctx s resp' -> StatusCode resp' = StatusCode resp ->
     Authorize net' ctx s = Authorize net ctx s).
Proof.
  intros Hrecv Hcode.
  destruct (receives_inv _ _ _ _ Hrecv) as (c & b & -> & Hr & Hm & Hdo).
  pose proof (Authorize_response net s c b resp Hr Hm Hdo) as Hrun.
  rewrite (interpret_not_ok resp Hcode) in Hrun. cbn [events outcome fst snd] in Hrun.
  rewrite Hrun. cbn [events outcome fst snd]. repeat split.
  - unfold UnexpectedStatus, fmt_Errorf. cbn. now rewrite append_empty_r.
  - now exists (outbound c s b).
  - unfold bodies_read. rewrite omap_app. cbn. rewrite app_nil_r.
    unfold preamble, inspection_log. cbn.
    now destruct (strings_Split (AccessToken s) ".") as [|p0 [|p1 [|p2 [|p3 rest]]]].
  - intros net' resp' Hrecv' Hsame.
    destruct (receives_inv _ _ _ _ Hrecv') as (c' & b' & [= <-] & _ & Hm' & Hdo').
    rewrite Hm in Hm'. injection Hm' as <-.
    rewrite (Authorize_response net' s c b resp' Hr Hm Hdo').
    rewrite interpret_not_ok by now rewrite Hsame.
    cbn [events outcome fst snd]. now rewrite Hsame.
Qed.

(** C5: every call of [Authorize] returns (it does not panic), and it
    returns an error or a decision, never both: a non-nil error comes with
    [false], and [true] comes with a nil error. *)
Theorem Authorize_error_or_decision net ctx s :
  exists (allowed : bool) (err : option error),
    outcome (Authorize net ctx s) = Returned (allowed, err) /\
    (err <> None -> allowed = false) /\
    (allowed = true -> err = None).
Proof.
  destruct (String.eqb_spec (route_of s) "") as [Hroute|Hroute].
  { rewrite (Authorize_missing net s ctx Hroute). returns_error. }
  destruct (json_Marshal (requestBody (route_of s))) as [b [cause|]] eqn:Hm.
  { rewrite (Authorize_marshal_failed net s ctx b cause Hroute Hm). returns_error. }
  destruct ctx as [c|].
  2:{ rewrite (Authorize_nil_context net s b Hroute Hm). returns_error. }
  destruct (net (outbound c s b)) as [resp|cause] eqn:Hdo.
  2:{ rewrite (Authorize_transport net s c b cause Hroute Hm Hdo). returns_error. }
  rewrite (Authorize_response net s c b resp Hroute Hm Hdo). cbn [outcome snd].
  destruct (Z.eq_dec (StatusCode resp) http_StatusOK) as [Hok|Hcode].
  2:{ rewrite (interpret_not_ok resp Hcode). returns_error. }
  rewrite (interpret_ok resp Hok). cbn [snd].
  destruct (decoded resp) as [r [cause|]]; cbn [decision]; [returns_error|].
  destruct (Errors r) as [|first rest]; [|returns_error].
  eexists _, _. split; [reflexivity|]. split; [congruence | trivial].
Qed.

(** C6: the token-inspection step is total and only logs.  For every access
    token it returns, without a panic and without an error value; it emits
    log lines only, and none unless the token has exactly three parts
    between dots; then the lines show the first two parts decoded as
    unpadded URL-safe base64, whatever error the decoding reports.  What the
    decoder yields has no part in what [Authorize] returns: with any other
    decoder in its place the result is the same. *)
Theorem inspectToken_total_and_inert (token : string) :
  inspectToken token = (inspection_log token, Returned tt) /\
  only_logs (inspection_log token) /\
  (length (strings_Split token ".") <> 3%nat -> inspection_log token = []) /\
  (forall part0 part1 part2,
     strings_Split token "." = [part0; part1; part2] ->
     inspection_log token =
       [LogPrintf (fmt_Sprintf
          [lit "Access Token Header: ";
           verb_s (fst (base64_RawURLEncoding_DecodeString part0)); lit newline]);
        LogPrintf (fmt_Sprintf
          [lit "Access Token Payload: ";
           verb_s (fst (base64_RawURLEncoding_DecodeString part1)); lit newline])]) /\
  (forall decoder net ctx s,
     outcome (@Authorize (with_decoder C decoder) net ctx s)
     = outcome (Authorize net ctx s)).
Proof.
  split; [apply inspectToken_run|].
  split.
  { unfold only_logs, inspection_log.
    destruct (strings_Split token ".") as [|p0 [|p1 [|p2 [|p3 rest]]]];
      repeat constructor; now eexists. }
  split.
  { unfold inspection_log.
    now destruct (strings_Split token ".") as [|p0 [|p1 [|p2 [|p3 rest]]]]. }
  split.
  { intros part0 part1 part2 Hparts. unfold inspection_log. now rewrite Hparts. }
  intros decoder net ctx s. unfold Authorize.
  rewrite (Authorize_start (C:=with_decoder C decoder)), (Authorize_start (C:=C)).
  reflexivity.
Qed.

(** C7, as the code has it: for a session whose normalized [AppRedirect] is
    not empty, every request [Authorize] hands to the client is a POST to
    the fixed endpoint whose headers are [Authorization: Bearer
    <AccessToken>] and [Content-Type: application/json] and whose body is
    the JSON encoding of [{"query": Q, "variables": {"route": R}}]; with a
    non-nil context and an encodable payload there is exactly one such
    request.  [R] is [AppRedirect] without its trailing slashes, and only
    those: what is removed is a run of slashes, [R] does not end in a
    slash, and it is the only such prefix.  [Q] is the query text of the
    specification with one line feed before it and one after it. *)
Theorem Authorize_outbound_request net ctx s :
  route_of s <> "" ->
  let Q := newline +:+ spec_query_text +:+ newline in
  let R := route_of s in
  (forall req,
     In req (issued (events (Authorize net ctx s))) ->
     Method req = "POST" /\
     URL req = lagoonGraphqlEndpoint /\
     Header req = {[ "Authorization" := ["Bearer " +:+ AccessToken s];
                     "Content-Type" := ["application/json"] ]} /\
     json_Marshal (payload Q R) = (ReqBody req, None)) /\
  (forall c bodyJSON,
     ctx = Some c ->
     json_Marshal (payload Q R) = (bodyJSON, None) ->
     issued (events (Authorize net ctx s)) = [outbound c s bodyJSON]) /\
  (exists n, AppRedirect s = R +:+ slashes n) /\
  ends_with_slash R = false /\
  (forall (prefix : string) (n : nat),
     ends_with_slash prefix = false ->
     AppRedirect s = prefix +:+ slashes n -> R = prefix).
Proof.
  intros Hroute Q R.
  assert (Hpayload : requestBody (route_of s) = payload Q R) by reflexivity.
  pose proof (issued_Authorize net ctx s) as Hissued.
  apply String.eqb_neq in Hroute. rewrite Hroute, Hpayload in Hissued.
  split; [|split; [|split; [|split]]].
  - intros req Hin. rewrite Hissued in Hin.
    destruct ctx as [c|]; [|contradiction].
    destruct (json_Marshal (payload Q R)) as [b [cause|]]; [contradiction|].
    destruct Hin as [<-|[]]. now repeat split.
  - intros c bodyJSON -> Hm. now rewrite Hissued, Hm.
  - apply TrimRight_decompose.
  - apply TrimRight_no_trailing_slash.
  - intros prefix n Hend Hredirect. unfold R, route_of. rewrite Hredirect.
    now apply TrimRight_append_slashes.
Qed.

(** C8: on an HTTP 200 response, [Authorize] returns
    [(false, ResponseDecodeFailed)] wrapping a cause exactly when decoding
    the body into the response shape fails with that cause; when decoding
    succeeds, the result is that of the checks of the [errors] list and of
    the name. *)
Theorem Authorize_decode_failed_iff net ctx s resp :
  receives net ctx s resp ->
  StatusCode resp = http_StatusOK ->
  (forall cause,
     outcome (Authorize net ctx s) = Returned (false, Some (ResponseDecodeFailed cause))
     <-> snd (decoded resp) = Some cause) /\
  (forall cause, Unwrap (ResponseDecodeFailed cause) = Some cause) /\
  (snd (decoded resp) = None ->
   outcome (Authorize net ctx s) =
   Returned
     match Errors (fst (decoded resp)) with
     | first :: _ => (false, Some (RemoteGraphQLError (Message first)))
     | [] => (negb (String.eqb
                      (Name (EnvironmentByRoute (Data (fst (decoded resp))))) ""),
              None)
     end).
Proof.
  intros Hrecv Hok.
  rewrite (receives_outcome _ _ _ _ Hrecv), (interpret_ok resp Hok).
  cbn [outcome snd].
  destruct (decoded resp) as [r [c|]]; cbn [fst snd].
  - split; [|split; [reflexivity | discriminate]].
    intros cause. cbn [decision]. split.
    + intros Heq.
      assert (He : Unwrap (ResponseDecodeFailed c) = Unwrap (ResponseDecodeFailed cause))
        by congruence.
      exact He.
    + now intros [= ->].
  - split; [|split; [reflexivity | reflexivity]].
    intros cause. split; [|discriminate].
    intros Heq. exfalso.
    apply (decision_decoded_not_ResponseDecodeFailed r false cause). congruence.
Qed.

(** C10: the error of reading a 200 body is dropped.  Two responses on
    which the same bytes were read, with or without a read error, give the
    same result: the decision on those bytes, be it a decoding failure or a
    decision on what they parse to, and never a [TransportFailure]. *)
Theorem Authorize_read_error_dropped net net' ctx s resp resp' :
  receives net ctx s resp ->
  receives net' ctx s resp' ->
  StatusCode resp = http_StatusOK ->
  StatusCode resp' = http_StatusOK ->
  read_data (Body resp) = read_data (Body resp') ->
  outcome (Authorize net ctx s) = outcome (Authorize net' ctx s) /\
  outcome (Authorize net ctx s) =
    Returned (decision (json_Unmarshal (read_data (Body resp))
                                       zero_environmentByRouteResponse)) /\
  (forall b cause,
     outcome (Authorize net ctx s) <> Returned (b, Some (TransportFailure cause))).
Proof.
  intros Hrecv Hrecv' Hok Hok' Hdata.
  rewrite (receives_outcome _ _ _ _ Hrecv), (receives_outcome _ _ _ _ Hrecv').
  rewrite (interpret_ok resp Hok), (interpret_ok resp' Hok').
  cbn [outcome snd]. unfold decoded. rewrite <- Hdata.
  repeat split.
  intros b cause Heq. injection Heq as Heq.
  now apply decision_not_TransportFailure in Heq.
Qed.

End Claims.

(** ** Further properties of the exchange *)

Section Exchange.
Context `{C : Codecs}.

(** When the client fails on the request, [Authorize] returns
    [(false, TransportFailure)] wrapping the client's error; there is no
    response, so nothing is read or closed. *)
Theorem Authorize_transport_failure (net : Network) (c : Context)
    (s : SessionState) (bodyJSON : string) (cause : error) :
  route_of s <> "" ->
  json_Marshal (requestBody (route_of s)) = (bodyJSON, None) ->
  net (outbound c s bodyJSON) = inr cause ->
  outcome (Authorize net (Some c) s) = Returned (false, Some (TransportFailure cause)) /\
  Unwrap (TransportFailure cause) = Some cause /\
  issued (events (Authorize net (Some c) s)) = [outbound c s bodyJSON] /\
  bodies_read (events (Authorize net (Some c) s)) = [] /\
  bodies_closed (events (Authorize net (Some c) s)) = [].
Proof.
  intros Hroute Hm Hdo.
  rewrite (Authorize_transport net s c bodyJSON cause Hroute Hm Hdo).
  cbn [events outcome fst snd].
  assert (Hpre : forall f : Event -> option ReadCloser,
             (forall line, f (LogPrintf line) = None) -> omap f (preamble s) = []).
  { intros f Hf. unfold preamble, inspection_log. cbn. rewrite Hf.
    destruct (strings_Split (AccessToken s) ".") as [|p0 [|p1 [|p2 [|p3 rest]]]];
      cbn; now rewrite ?Hf. }
  repeat split.
  - now rewrite issued_app, issued_preamble.
  - unfold bodies_read. rewrite omap_app, Hpre; trivial.
  - unfold bodies_closed. rewrite omap_app, Hpre; trivial.
Qed.

(** On a 200 response the body is read once, what was read is logged, and
    the stream is closed last, whatever the decision. *)
Theorem Authorize_reads_logs_closes (net : Network) (ctx : option Context)
    (s : SessionState) (resp : Response) :
  receives net ctx s resp ->
  StatusCode resp = http_StatusOK ->
  exists req,
    net req = inl resp /\
    events (Authorize net ctx s) =
      preamble s ++
      [ClientDo req;
       ReadAll (Body resp);
       LogPrintf (fmt_Sprintf [lit "Lagoon Authorization returned:"; lit newline;
                               verb_s (read_data (Body resp)); lit newline]);
       Close (Body resp)].
Proof.
  intros Hrecv Hok.
  destruct (receives_inv _ _ _ _ Hrecv) as (c & b & -> & Hr & Hm & Hdo).
  exists (outbound c s b). split; [exact Hdo|].
  rewrite (Authorize_response net s c b resp Hr Hm Hdo).
  now rewrite (interpret_ok resp Hok).
Qed.

(** Every call returns one of the results of the taxonomy: an error of one
    of seven kinds with [false], or a boolean with no error. *)
Theorem Authorize_outcome_classified (net : Network) (ctx : option Context)
    (s : SessionState) :
  exists result, outcome (Authorize net ctx s) = Returned result /\ classified result.
Proof.
  destruct (String.eqb_spec (route_of s) "") as [Hroute|Hroute].
  { rewrite (Authorize_missing net s ctx Hroute). eexists. split; [reflexivity|].
    constructor. }
  destruct (json_Marshal (requestBody (route_of s))) as [b [cause|]] eqn:Hm.
  { rewrite (Authorize_marshal_failed net s ctx b cause Hroute Hm).
    eexists. split; [reflexivity|]. constructor. }
  destruct ctx as [c|].
  2:{ rewrite (Authorize_nil_context net s b Hroute Hm).
      eexists. split; [reflexivity|]. constructor. }
  destruct (net (outbound c s b)) as [resp|cause] eqn:Hdo.
  2:{ rewrite (Authorize_transport net s c b cause Hroute Hm Hdo).
      eexists. split; [reflexivity|]. constructor. }
  rewrite (Authorize_response net s c b resp Hroute Hm Hdo). cbn [outcome snd].
  destruct (Z.eq_dec (StatusCode resp) http_StatusOK) as [Hok|Hcode].
  2:{ rewrite (interpret_not_ok resp Hcode).
      eexists. split; [reflexivity|]. now constructor. }
  rewrite (interpret_ok resp Hok). cbn [snd].
  eexists. split; [reflexivity|].
  destruct (decoded resp) as [r [cause|]]; cbn [decision]; [constructor|].
  destruct (Errors r) as [|first rest]; constructor.
Qed.

End Exchange.

(** ** Beyond the claims *)

Section Extent.
Context `{C : Codecs}.
Implicit Types (net : Network) (ctx : option Context) (s : SessionState).

Lemma omap_preamble {A : Type} (f : Event -> option A) s :
  (forall line, f (LogPrintf line) = None) -> omap f (preamble s) = [].
Proof.
  intros Hf. unfold preamble, inspection_log. cbn. rewrite Hf.
  destruct (strings_Split (AccessToken s) ".") as [|p0 [|p1 [|p2 [|p3 rest]]]];
    cbn; now rewrite ?Hf.
Qed.

Lemma only_logs_preamble s : only_logs (preamble s).
Proof.
  unfold only_logs, preamble. constructor; [now eexists|].
  unfold inspection_log.
  destruct (strings_Split (AccessToken s) ".") as [|p0 [|p1 [|p2 [|p3 rest]]]];
    repeat constructor; now eexists.
Qed.

(** No retry: a call hands at most one request to the client, and which
    request it is does not depend on what the network answers. *)
Theorem Authorize_at_most_one_request net ctx s :
  (length (issued (events (Authorize net ctx s))) <= 1)%nat /\
  (forall net',
     issued (events (Authorize net' ctx s)) = issued (events (Authorize net ctx s))).
Proof.
  split.
  - rewrite issued_Authorize.
    destruct ctx as [c|], (json_Marshal (requestBody (route_of s))) as [b [e|]];
      cbn; try lia.
    destruct (String.eqb (route_of s) ""); cbn; lia.
  - intros net'. now rewrite !issued_Authorize.
Qed.

(** The result is made from the response alone: two calls, whatever their
    sessions, contexts and networks, that receive responses with the same
    status code and the same bytes read return the same result. *)
Theorem Authorize_outcome_from_response_alone net net' ctx ctx' s s'
    (resp resp' : Response) :
  receives net ctx s resp ->
  receives net' ctx' s' resp' ->
  StatusCode resp = StatusCode resp' ->
  read_data (Body resp) = read_data (Body resp') ->
  outcome (Authorize net ctx s) = outcome (Authorize net' ctx' s').
Proof.
  intros Hrecv Hrecv' Hcode Hdata.
  rewrite (receives_outcome _ _ _ _ Hrecv), (receives_outcome _ _ _ _ Hrecv').
  destruct (Z.eq_dec (StatusCode resp) http_StatusOK) as [Hok|Hne].
  - rewrite (interpret_ok resp Hok), (interpret_ok resp') by now rewrite <- Hcode.
    cbn [outcome snd]. unfold decoded. now rewrite Hdata.
  - rewrite (interpret_not_ok resp Hne), (interpret_not_ok resp') by now rewrite <- Hcode.
    cbn [outcome snd]. now rewrite Hcode.
Qed.

Lemma slashes_app (m n : nat) : slashes m +:+ slashes n = slashes (m + n).
Proof. induction m as [|m IH]; [reflexivity|]. cbn. now rewrite IH. Qed.

(** Trailing slashes do not count: a destination with any number of slashes
    added at its end is normalized to the same route and gives the same
    payload, and normalizing a route again changes nothing. *)
Theorem route_ignores_trailing_slashes s s' (n : nat) :
  AppRedirect s' = AppRedirect s +:+ slashes n ->
  route_of s' = route_of s /\
  requestBody (route_of s') = requestBody (route_of s) /\
  strings_TrimRight (route_of s) "/" = route_of s.
Proof.
  intros Hmore.
  assert (Hsame : route_of s' = route_of s).
  { unfold route_of at 1. rewrite Hmore.
    destruct (TrimRight_decompose (AppRedirect s)) as [m Hm].
    fold (route_of s) in Hm. rewrite Hm at 1.
    rewrite append_assoc, slashes_app.
    apply TrimRight_append_slashes, TrimRight_no_trailing_slash. }
  split; [exact Hsame|]. split; [now rewrite Hsame|].
  rewrite <- (append_empty_r (route_of s)) at 1.
  apply (TrimRight_append_slashes (route_of s) 0), TrimRight_no_trailing_slash.
Qed.

(** The token is inspected exactly when it holds exactly two dots: then two
    lines are logged, and otherwise none. *)
Theorem inspection_iff_two_dots (token : string) :
  (count_byte "." token = 2%nat -> length (inspection_log token) = 2%nat) /\
  (count_byte "." token <> 2%nat -> inspection_log token = []).
Proof.
  pose proof (Split_dot_length token) as Hlen. unfold inspection_log.
  destruct (strings_Split token ".") as [|p0 [|p1 [|p2 [|p3 rest]]]];
    cbn [length] in Hlen; split; intros Hdots; try reflexivity; lia.
Qed.

(** A body is closed exactly when it was read: on every path the streams
    closed are the streams read, one at most. *)
Theorem Authorize_closes_what_it_reads net ctx s :
  bodies_closed (events (Authorize net ctx s))
    = bodies_read (events (Authorize net ctx s)) /\
  (length (bodies_read (events (Authorize net ctx s))) <= 1)%nat.
Proof.
  assert (Hlogs : forall (f : Event -> option ReadCloser),
             (forall line, f (LogPrintf line) = None) -> omap f (preamble s) = [])
    by (intros f; apply omap_preamble).
  unfold bodies_closed, bodies_read.
  destruct (String.eqb_spec (route_of s) "") as [Hroute|Hroute].
  { rewrite (Authorize_missing net s ctx Hroute). cbn [events fst].
    rewrite !Hlogs by trivial. cbn; split; [reflexivity | lia]. }
  destruct (json_Marshal (requestBody (route_of s))) as [b [cause|]] eqn:Hm.
  { rewrite (Authorize_marshal_failed net s ctx b cause Hroute Hm). cbn [events fst].
    rewrite !Hlogs by trivial. cbn; split; [reflexivity | lia]. }
  destruct ctx as [c|].
  2:{ rewrite (Authorize_nil_context net s b Hroute Hm). cbn [events fst].
      rewrite !Hlogs by trivial. cbn; split; [reflexivity | lia]. }
  destruct (net (outbound c s b)) as [resp|cause] eqn:Hdo.
  2:{ rewrite (Authorize_transport net s c b cause Hroute Hm Hdo). cbn [events fst].
      rewrite !omap_app, !Hlogs by trivial. cbn; split; [reflexivity | lia]. }
  rewrite (Authorize_response net s c b resp Hroute Hm Hdo). cbn [events fst].
  rewrite !omap_app, !Hlogs by trivial.
  destruct (Z.eq_dec (StatusCode resp) http_StatusOK) as [Hok|Hne].
  - rewrite (interpret_ok resp Hok). cbn; split; [reflexivity | lia].
  - rewrite (interpret_not_ok resp Hne). cbn; split; [reflexivity | lia].
Qed.

(** When the request cannot be built, because the payload does not encode
    or because the context is nil, nothing goes to the network: the call
    only logs and returns [false] with the error of the step that failed,
    the encoding being tried first. *)
Theorem Authorize_no_request_when_unbuilt net ctx s :
  route_of s <> "" ->
  snd (json_Marshal (requestBody (route_of s))) <> None \/ ctx = None ->
  issued (events (Authorize net ctx s)) = [] /\
  only_logs (events (Authorize net ctx s)) /\
  match snd (json_Marshal (requestBody (route_of s))) with
  | Some cause =>
      outcome (Authorize net ctx s)
        = Returned (false, Some (RequestEncodingFailed cause))
  | None =>
      outcome (Authorize net ctx s)
        = Returned (false, Some (RequestCreationFailed
                                   (errorString "net/http: nil Context")))
  end.
Proof.
  intros Hroute Hunbuilt.
  destruct (json_Marshal (requestBody (route_of s))) as [b [cause|]] eqn:Hm;
    cbn [snd] in *.
  - rewrite (Authorize_marshal_failed net s ctx b cause Hroute Hm). cbn [events fst].
    repeat split; [apply issued_preamble | apply only_logs_preamble].
  - destruct Hunbuilt as [Hfalse| ->]; [congruence|].
    rewrite (Authorize_nil_context net s b Hroute Hm). cbn [events fst].
    repeat split; [apply issued_preamble | apply only_logs_preamble].
Qed.

End Extent.

(** An error value tells its kind and what it carries: the status code, the
    remote message or the wrapped cause.  No two kinds share a value. *)
Theorem error_of_inj (k k' : ErrorKind) : error_of k = error_of k' -> k = k'.
Proof.
  destruct k, k'; unfold error_of, MissingDestination, RequestEncodingFailed,
    RequestCreationFailed, TransportFailure, UnexpectedStatus,
    ResponseDecodeFailed, RemoteGraphQLError, fmt_Errorf;
    cbn [wrappedErr fmt_Sprintf render]; intros Heq;
    try discriminate Heq; try reflexivity.
  all: try (injection Heq as _ Hcause; now subst).
  - injection Heq as Heq. rewrite !append_empty_r in Heq.
    f_equal. now apply strconv_Itoa_inj.
  - injection Heq as Heq. rewrite !append_empty_r in Heq. now f_equal.
Qed.

(** ** The claims on the scenarios *)

Section Runs.
Import GoStd Scenario.

Lemma session_receives (code : Z) (body : ReadCloser) :
  receives (answering code body) (Some background) session
           {| StatusCode := code; Body := body |}.
Proof.
  apply (receives_intro _ _ _ (fst (Marshal (requestBody (route_of session)))));
    [vm_compute; discriminate | reflexivity | reflexivity].
Defined.

(** C1 on a body that names the environment [prod]: allowed. *)
Lemma Authorize_allowed_iff_name_witness :
  receives (answering 200 (complete body_prod)) (Some background) session
           {| StatusCode := 200; Body := complete body_prod |} /\
  outcome (Authorize (answering 200 (complete body_prod)) (Some background) session)
    = Returned (true, None).
Proof.
  split; [apply session_receives|].
  refine (proj1 (proj2 (Authorize_allowed_iff_name
                          (answering 200 (complete body_prod)) (Some background) session
                          {| StatusCode := 200; Body := complete body_prod |}
                          {| Data := {| EnvironmentByRoute := {| ID := 7; Name := "prod" |} |};
                             Errors := [] |}
                          (session_receives _ _) eq_refl _ eq_refl)) _).
  - vm_compute. reflexivity.
  - discriminate.
Defined.

(** The same on a body without an environment: denied, with no error. *)
Example Authorize_denies_without_environment :
  outcome (Authorize (answering 200 (complete body_no_environment))
                     (Some background) session)
    = Returned (false, None).
Proof. vm_compute. reflexivity. Qed.

(** The inspection of a token whose first part is not base64: the bytes
    decoded before the error (none here) are logged, and nothing fails. *)
Example inspectToken_on_malformed_base64 :
  inspectToken "!!.e30.x" =
  ([LogPrintf ("Access Token Header: " +:+ newline);
    LogPrintf ("Access Token Payload: {}" +:+ newline)],
   Returned tt) /\
  DecodeString "!!" = ("", Some (CorruptInputError 0)).
Proof. split; vm_compute; reflexivity. Qed.

(** C2 on a destination of three slashes, with a nil context and a service
    out of reach. *)
Lemma Authorize_missing_destination_witness :
  AppRedirect session_without_route = slashes 3 /\
  Authorize unreachable None session_without_route
    = (preamble session_without_route, Returned (false, Some MissingDestination)) /\
  issued (events (Authorize unreachable None session_without_route)) = [].
Proof.
  split; [reflexivity|].
  pose proof (Authorize_missing_destination unreachable None session_without_route 3
                eq_refl) as (Hrun & Hissued & _).
  now split.
Defined.

(** C3 on a body with two errors and a named environment: the first error
    is reported. *)
Lemma Authorize_remote_error_first_witness :
  receives (answering 200 (complete body_errors)) (Some background) session
           {| StatusCode := 200; Body := complete body_errors |} /\
  outcome (Authorize (answering 200 (complete body_errors)) (Some background) session)
    = Returned (false, Some (RemoteGraphQLError "Unauthorized")).
Proof.
  split; [apply session_receives|].
  refine (proj1 (Authorize_remote_error_first
                   (answering 200 (complete body_errors)) (Some background) session
                   {| StatusCode := 200; Body := complete body_errors |}
                   {| Data := {| EnvironmentByRoute := {| ID := 7; Name := "prod" |} |};
                      Errors := [{| Message := "Unauthorized" |};
                                 {| Message := "later" |}] |}
                   {| Message := "Unauthorized" |} [{| Message := "later" |}]
                   (session_receives _ _) eq_refl _ eq_refl)).
  vm_compute. reflexivity.
Defined.

(** C4 on an HTTP 500 response. *)
Lemma Authorize_unexpected_status_witness :
  receives (answering 500 (complete body_html)) (Some background) session
           {| StatusCode := 500; Body := complete body_html |} /\
  outcome (Authorize (answering 500 (complete body_html)) (Some background) session)
    = Returned (false, Some (UnexpectedStatus 500)) /\
  Error (UnexpectedStatus 500) = "unexpected GraphQL status: 500" /\
  bodies_read (events (Authorize (answering 500 (complete body_html))
                                 (Some background) session)) = [].
Proof.
  split; [apply session_receives|].
  pose proof (Authorize_unexpected_status
                (answering 500 (complete body_html)) (Some background) session
                {| StatusCode := 500; Body := complete body_html |}
                (session_receives _ _)) as Hclaim.
  destruct Hclaim as (Hout & Herr & _ & Hread & _); [discriminate|].
  repeat split; assumption.
Defined.

(** C7 as stated fails: the query in the payload is not, byte for byte, the
    text the specification prints.  The code's text starts with a line
    feed and the specification's with the word [query], and the bytes sent
    for the two differ. *)
Lemma query_text_is_not_the_printed_one :
  requestBody (route_of session) <> payload spec_query_text (route_of session) /\
  fst (Marshal (requestBody (route_of session)))
    <> fst (Marshal (payload spec_query_text (route_of session))).
Proof.
  split.
  - intros Heq. apply (f_equal (fun m : gmap string any => m !! "query")) in Heq.
    vm_compute in Heq. discriminate Heq.
  - vm_compute. discriminate.
Qed.

(** C7 on the route of the specification's example: one request, with the
    route cut to [https://example.com/app]. *)
Lemma Authorize_outbound_request_witness :
  route_of session = "https://example.com/app" /\
  issued (events (Authorize (answering 200 (complete body_prod))
                            (Some background) session)) = [request].
Proof.
  split; [reflexivity|].
  assert (Hroute : route_of session <> "") by (vm_compute; discriminate).
  exact (proj1 (proj2 (Authorize_outbound_request
                         (answering 200 (complete body_prod)) (Some background)
                         session Hroute))
               background (fst (Marshal (requestBody (route_of session))))
               eq_refl eq_refl).
Defined.

(** The bytes of that request's body. *)
Example request_body_bytes :
  ReqBody request =
  quoted "{'query':'\nquery GetEnvironmentByRoute($route: String!) {\n  environmentByRoute(route: $route) {\n    id\n    name\n  }\n}\n','variables':{'route':'https://example.com/app'}}".
Proof. vm_compute. reflexivity. Qed.

(** C8 on a body that is not JSON. *)
Lemma Authorize_decode_failed_iff_witness :
  receives (answering 200 (complete body_html)) (Some background) session
           {| StatusCode := 200; Body := complete body_html |} /\
  outcome (Authorize (answering 200 (complete body_html)) (Some background) session)
    = Returned (false, Some (ResponseDecodeFailed SyntaxError)).
Proof.
  split; [apply session_receives|].
  apply (proj1 (Authorize_decode_failed_iff
                  (answering 200 (complete body_html)) (Some background) session
                  {| StatusCode := 200; Body := complete body_html |}
                  (session_receives _ _) eq_refl)).
  vm_compute. reflexivity.
Defined.

(** C10 on a body whose read broke off in the middle of the JSON text,
    against the same bytes read without an error: a decoding failure both
    times. *)
Lemma Authorize_read_error_dropped_witness :
  read_err (truncated "{") <> None /\
  outcome (Authorize (answering 200 (truncated "{")) (Some background) session)
    = outcome (Authorize (answering 200 (complete "{")) (Some background) session) /\
  outcome (Authorize (answering 200 (truncated "{")) (Some background) session)
    = Returned (false, Some (ResponseDecodeFailed SyntaxError)).
Proof.
  split; [discriminate|].
  pose proof (Authorize_read_error_dropped
                (answering 200 (truncated "{")) (answering 200 (complete "{"))
                (Some background) session
                {| StatusCode := 200; Body := truncated "{" |}
                {| StatusCode := 200; Body := complete "{" |}
                (session_receives _ _) (session_receives _ _)
                eq_refl eq_refl eq_refl) as (Hsame & Hout & _).
  split; [exact Hsame|]. rewrite Hout. vm_compute. reflexivity.
Defined.

(** A body cut short may still parse: the decision is then made on what was
    read. *)
Example Authorize_decides_on_partial_body :
  outcome (Authorize (answering 200 (truncated body_prod)) (Some background) session)
    = Returned (true, None).
Proof. vm_compute. reflexivity. Qed.

(** The deferred [Close] is registered after the status check: a call that
    received a response closes its body on a 200 and on no other status. *)
Lemma bodies_closed_Authorize `{C : Codecs} (net : Network) (ctx : option Context)
    (s : SessionState) (resp : Response) :
  receives (C:=C) net ctx s resp ->
  bodies_closed (events (Authorize (C:=C) net ctx s)) =
  if StatusCode resp =? http_StatusOK then [Body resp] else [].
Proof.
  intros Hrecv.
  destruct (receives_inv _ _ _ _ Hrecv) as (c & b & -> & Hr & Hm & Hdo).
  rewrite (Authorize_response net s c b resp Hr Hm Hdo). cbn [events fst].
  unfold bodies_closed. rewrite omap_app.
  assert (Hpre : omap (fun e => match e with Close r => Some r | _ => None end)
                      (preamble s) = []).
  { unfold preamble, inspection_log. cbn.
    now destruct (strings_Split (AccessToken s) ".") as [|p0 [|p1 [|p2 [|p3 rest]]]]. }
  rewrite Hpre. cbn.
  destruct (Z.eqb_spec (StatusCode resp) http_StatusOK) as [Hok|Hcode].
  - now rewrite (interpret_ok resp Hok).
  - now rewrite (interpret_not_ok resp Hcode).
Qed.

(** C9 does not hold of the code: on an HTTP 500 response, which the call
    did obtain from the client, [Authorize] returns without closing the
    response body; the body is closed on a 200 only. *)
Theorem body_left_open_on_unexpected_status :
  receives (answering 500 (complete body_html)) (Some background) session
           {| StatusCode := 500; Body := complete body_html |} /\
  bodies_closed (events (Authorize (answering 500 (complete body_html))
                                   (Some background) session)) = [] /\
  bodies_closed (events (Authorize (answering 200 (complete body_prod))
                                   (Some background) session))
    = [complete body_prod].
Proof.
  split; [apply session_receives|]. split.
  - now rewrite (bodies_closed_Authorize _ _ _ _ (session_receives 500 (complete body_html))).
  - now rewrite (bodies_closed_Authorize _ _ _ _ (session_receives 200 (complete body_prod))).
Qed.

(** A service out of reach: a transport failure, and no body to read. *)
Lemma Authorize_transport_failure_witness :
  outcome (Authorize unreachable (Some background) session)
    = Returned (false, Some (TransportFailure
                               (errorString "dial tcp: connection refused"))) /\
  issued (events (Authorize unreachable (Some background) session)) = [request].
Proof.
  assert (Hroute : route_of session <> "") by (vm_compute; discriminate).
  pose proof (Authorize_transport_failure unreachable background session
                (fst (Marshal (requestBody (route_of session))))
                (errorString "dial tcp: connection refused")
                Hroute eq_refl eq_refl) as (Hout & _ & Hissued & _).
  now split.
Defined.

(** The events of a call that is allowed. *)
Lemma Authorize_reads_logs_closes_witness :
  exists req,
    events (Authorize (answering 200 (complete body_prod)) (Some background) session) =
    preamble session ++
    [ClientDo req;
     ReadAll (complete body_prod);
     LogPrintf (fmt_Sprintf [lit "Lagoon Authorization returned:"; lit newline;
                             verb_s body_prod; lit newline]);
     Close (complete body_prod)].
Proof.
  destruct (Authorize_reads_logs_closes
              (answering 200 (complete body_prod)) (Some background) session
              {| StatusCode := 200; Body := complete body_prod |}
              (session_receives _ _) eq_refl) as (req & _ & Hevents).
  now exists req.
Defined.

(** The log of that call. *)
Example log_of_allowed_call :
  omap (fun e => match e with LogPrintf line => Some line | _ => None end)
       (events (Authorize (answering 200 (complete body_prod))
                          (Some background) session)) =
  ["Checking Lagoon provider for authorization on https://example.com/app///"
     +:+ newline;
   "Access Token Header: " +:+ quoted "{'alg':'RS256'}" +:+ newline;
   "Access Token Payload: " +:+ quoted "{'sub':'1'}" +:+ newline;
   "Lagoon Authorization returned:" +:+ newline +:+ body_prod +:+ newline].
Proof. vm_compute. reflexivity. Qed.

(** Two sessions that differ in token and destination, and two services
    that answer the same bytes, one after a broken read: the same result. *)
Lemma Authorize_outcome_from_response_alone_witness :
  outcome (Authorize (answering 200 (complete body_errors)) (Some background) session)
  = outcome (Authorize (answering 200 (truncated body_errors)) (Some background)
                       {| AccessToken := "opaque"; AppRedirect := "/admin/" |}).
Proof.
  refine (Authorize_outcome_from_response_alone
            (answering 200 (complete body_errors))
            (answering 200 (truncated body_errors))
            (Some background) (Some background)
            session {| AccessToken := "opaque"; AppRedirect := "/admin/" |}
            {| StatusCode := 200; Body := complete body_errors |}
            {| StatusCode := 200; Body := truncated body_errors |}
            (session_receives _ _) _ eq_refl eq_refl).
  apply (receives_intro _ _ _
           (fst (Marshal (requestBody
                            (route_of {| AccessToken := "opaque";
                                         AppRedirect := "/admin/" |})))));
    [vm_compute; discriminate | reflexivity | reflexivity].
Defined.

(** The destination of the scenario with two slashes less. *)
Lemma route_ignores_trailing_slashes_witness :
  route_of session
  = route_of {| AccessToken := "opaque"; AppRedirect := "https://example.com/app/" |}.
Proof.
  exact (proj1 (route_ignores_trailing_slashes
                  {| AccessToken := "opaque";
                     AppRedirect := "https://example.com/app/" |}
                  session 2 eq_refl)).
Defined.

(** A nil context: the payload encodes, the request is not created, and
    the service out of reach is never called. *)
Lemma Authorize_no_request_when_unbuilt_witness :
  issued (events (Authorize unreachable None session)) = [] /\
  outcome (Authorize unreachable None session)
    = Returned (false, Some (RequestCreationFailed
                               (errorString "net/http: nil Context"))).
Proof.
  assert (Hroute : route_of session <> "") by (vm_compute; discriminate).
  pose proof (Authorize_no_request_when_unbuilt unreachable None session
                Hroute (or_intror eq_refl)) as (Hissued & _ & Hout).
  split; [exact Hissued | exact Hout].
Defined.

(** Two status codes, two errors. *)
Lemma error_of_inj_witness : UnexpectedStatus 500 <> UnexpectedStatus 502.
Proof.
  intros Heq.
  pose proof (error_of_inj (KUnexpectedStatus 500) (KUnexpectedStatus 502) Heq) as Hk.
  discriminate Hk.
Defined.

(** The events of a call that is refused for its status: no body among
    them. *)
Example events_of_refused_call :
  events (Authorize (answering 503 (complete body_html)) (Some background) session)
  = preamble session ++ [ClientDo request].
Proof. vm_compute. reflexivity. Qed.

End Runs.
